(** * aivol.sidecar: sidecar naming, directory classification and batch drivers

    A shallow embedding of [src/aivol/sidecar.py].  Names are Python strings,
    Python sets are [gset string], the dict built by [list_directory] is a
    [gmap string (list string)], and the effects of the module (directory
    listing, the codec, the two output streams, exceptions) are threaded
    through a small state-and-exception monad [Py]. *)

From Stdlib Require Import ZArith Ascii String List Lia.
From stdpp Require Import base decidable option list sets gmap fin_maps strings pretty.

#[local] Set Warnings "-clear-no-such-hyp".

Open Scope string_scope.
Open Scope list_scope.

(** ** Python [str] primitives *)

Module PyStr.

(** [s.startswith(p)]. *)
Fixpoint startswith (p s : string) : bool :=
  match p, s with
  | EmptyString, _ => true
  | String a p', String b s' => if Ascii.eqb a b then startswith p' s' else false
  | String _ _, EmptyString => false
  end.

(** [s[n:]]. *)
Fixpoint drop (n : nat) (s : string) : string :=
  match n, s with
  | O, _ => s
  | S n', String _ s' => drop n' s'
  | S _, EmptyString => EmptyString
  end.

(** [sep in s] for a non-empty [sep]: some suffix of [s] starts with [sep]. *)
Fixpoint contains (sep s : string) : bool :=
  startswith sep s ||
  match s with
  | EmptyString => false
  | String _ s' => contains sep s'
  end.

(** The split behind [s.rpartition(sep)]: the text before and after the
    occurrence of [sep] with the greatest start index, if there is one. *)
Fixpoint rsplit_last (sep s : string) : option (string * string) :=
  match s with
  | EmptyString => None
  | String c s' =>
      match rsplit_last sep s' with
      | Some (head, tail) => Some (String c head, tail)
      | None =>
          if startswith sep s then Some (EmptyString, drop (String.length sep) s)
          else None
      end
  end.

(** [s.rpartition(sep)]: [(head, sep, tail)] around the last occurrence of
    [sep], and [("", "", s)] when [sep] does not occur. *)
Definition rpartition (sep s : string) : string * string * string :=
  match rsplit_last sep s with
  | Some (head, tail) => (head, sep, tail)
  | None => (EmptyString, EmptyString, s)
  end.

(** [s.replace(old, new)] for a non-empty [old]: scanning from the left,
    every occurrence of [old] that does not overlap an earlier replaced one
    becomes [new].  [skip] counts the characters of the current occurrence
    that are still to be dropped. *)
Fixpoint replace_go (old new : string) (skip : nat) (s : string) : string :=
  match s with
  | EmptyString => EmptyString
  | String c s' =>
      match skip with
      | S k => replace_go old new k s'
      | O =>
          if startswith old s
          then new ++ replace_go old new (String.length old - 1) s'
          else String c (replace_go old new 0 s')
      end
  end.

Definition replace (old new s : string) : string := replace_go old new 0 s.

(** [s.rfind(c) + 1] for a one-character [c]: the length of the longest
    prefix of [s] that ends in [c], and [0] when [c] does not occur. *)
Fixpoint rfind_succ (c : ascii) (s : string) : nat :=
  match s with
  | EmptyString => 0
  | String a s' =>
      match rfind_succ c s' with
      | O => if Ascii.eqb a c then 1 else 0
      | S n => S (S n)
      end
  end.

(** [s[:n]]. *)
Fixpoint take (n : nat) (s : string) : string :=
  match n, s with
  | O, _ => EmptyString
  | S n', String c s' => String c (take n' s')
  | S _, EmptyString => EmptyString
  end.

(** [s.endswith(c)] for a one-character [c]. *)
Fixpoint endswith_char (c : ascii) (s : string) : bool :=
  match s with
  | EmptyString => false
  | String a EmptyString => Ascii.eqb a c
  | String _ s' => endswith_char c s'
  end.

(** [s.rstrip(c)] for a one-character [c]. *)
Fixpoint rstrip_char (c : ascii) (s : string) : string :=
  match s with
  | EmptyString => EmptyString
  | String a s' =>
      match rstrip_char c s' with
      | EmptyString => if Ascii.eqb a c then EmptyString else String a EmptyString
      | r => String a r
      end
  end.

(** [s == c * len(s)]: every character of [s] is [c]. *)
Fixpoint all_char (c : ascii) (s : string) : bool :=
  match s with
  | EmptyString => true
  | String a s' => Ascii.eqb a c && all_char c s'
  end.

End PyStr.

(** ** The Python runtime: exceptions, the world, the [Py] monad *)

(** The exceptions the module can raise. *)
Inductive PyExc : Type :=
  | NameError (name : string)
  | UnboundLocalError (name : string)
  | AttributeError (attr : string)
  | TypeError (msg : string)
  | ZeroDivisionError
  | OSError (path : string).

(** A metadata record: the decoded content of one sidecar file. *)
Abbreviation Metadata := (gmap string string).

(** What the codec hands back for a path: a mapping, or [None]. *)
Inductive PyObj : Type :=
  | PyNone
  | PyDict (m : Metadata).

(** [bool(x)]: [None] and the empty dict are falsy. *)
Definition truthy (x : PyObj) : bool :=
  match x with
  | PyNone => false
  | PyDict m => bool_decide (m ≠ ∅)
  end.

(** [x or {}]. *)
Definition or_empty_dict (x : PyObj) : Metadata :=
  match x with
  | PyNone => ∅
  | PyDict m => if truthy x then m else ∅
  end.

(** Everything the module reads or changes outside its own locals.
    [stores] and [calls] record, in order, every [universal_store] call and
    every invocation of the function given to [process_sidecar_files]. *)
Record World : Type := mkWorld {
  dirs : gmap string (list string);
  files : gmap string Metadata;
  stores : list (string * Metadata);
  calls : list (string * string);
  stdout : list string;
  stderr : list string
}.

Inductive Outcome (A : Type) : Type :=
  | Returned (a : A)
  | Raised (e : PyExc).
Arguments Returned {A} a.
Arguments Raised {A} e.

(** A computation runs from a world to an outcome and the world it leaves;
    an exception keeps the effects that happened before it. *)
Definition Py (A : Type) : Type := World → Outcome A * World.

Definition ret {A} (a : A) : Py A := λ w, (Returned a, w).

Definition raise {A} (e : PyExc) : Py A := λ w, (Raised e, w).

Definition bind {A B} (m : Py A) (k : A → Py B) : Py B :=
  λ w, match m w with
       | (Returned a, w') => k a w'
       | (Raised e, w') => (Raised e, w')
       end.

Declare Scope py_scope.
Delimit Scope py_scope with py.
Notation "x <- m ;; k" := (bind m (λ x, k))
  (at level 100, m at next level, right associativity) : py_scope.
Notation "m ;;; k" := (bind m (λ _, k))
  (at level 100, right associativity) : py_scope.
Open Scope py_scope.

(** [for x in xs: body], where [body] may rebind the loop-carried locals [acc]. *)
Fixpoint for_each {A S} (xs : list A) (body : A → S → Py S) (acc : S) : Py S :=
  match xs with
  | [] => ret acc
  | x :: rest => acc' <- body x acc ;; for_each rest body acc'
  end.

(** Iteration order of a Python set.  The language fixes no order, only that
    every element comes up once. *)
Class SetIter : Type := {
  set_iter : gset string → list string;
  set_iter_perm : ∀ X, set_iter X ≡ₚ elements X
}.

(** One admissible order, used to run the model on concrete directories. *)
Definition elements_iter : SetIter :=
  {| set_iter := elements; set_iter_perm := λ X, reflexivity (elements X) |}.

(** *** Name resolution *)

(** The names bound at module level once [sidecar.py] has been imported. *)
Inductive Global : Type :=
  | G_glob | G_os | G_universal_load | G_universal_store | G_sys
  | G_Callable | G_Dict | G_Iterator
  | G_Handler | G_list_directory | G_load_to_pandas
  | G_update_and_store_sidecar_files | G_process_sidecar_files.

Definition module_globals : list (string * Global) :=
  [ ("glob", G_glob); ("os", G_os);
    ("universal_load", G_universal_load); ("universal_store", G_universal_store);
    ("sys", G_sys);
    ("Callable", G_Callable); ("Dict", G_Dict); ("Iterator", G_Iterator);
    ("Handler", G_Handler); ("list_directory", G_list_directory);
    ("load_to_pandas", G_load_to_pandas);
    ("update_and_store_sidecar_files", G_update_and_store_sidecar_files);
    ("process_sidecar_files", G_process_sidecar_files) ].

Fixpoint assoc {V} (name : string) (l : list (string * V)) : option V :=
  match l with
  | [] => None
  | (k, v) :: rest => if String.eqb k name then Some v else assoc name rest
  end.

(** Loading a name that no statement of the enclosing function assigns: it is
    looked up among the module's globals (none of the names looked up this way
    below is a builtin). *)
Definition load_global (name : string) : Py Global :=
  match assoc name module_globals with
  | Some g => ret g
  | None => raise (NameError name)
  end.

(** Loading a local variable that may not have been assigned yet. *)
Definition load_local {A} (name : string) (v : option A) : Py A :=
  match v with
  | Some a => ret a
  | None => raise (UnboundLocalError name)
  end.

(** *** Output streams *)

(** The line feed that ends the messages written to the error stream. *)
Definition newline : string := String (Ascii.ascii_of_nat 10) EmptyString.

Definition print (line : string) : Py unit :=
  λ w, (Returned (), mkWorld (dirs w) (files w) (stores w) (calls w)
                             (stdout w ++ [line]) (stderr w)).

Definition sys_stderr_write (text : string) : Py unit :=
  λ w, (Returned (), mkWorld (dirs w) (files w) (stores w) (calls w)
                             (stdout w) (stderr w ++ [text])).

(** *** [os] and [os.path] (POSIX) *)

Definition os_listdir (directory : string) : Py (list string) :=
  λ w, match dirs w !! directory with
       | Some entries => (Returned entries, w)
       | None => (Raised (OSError directory), w)
       end.

Definition os_path_isdir (directory : string) : Py bool :=
  λ w, (Returned (bool_decide (is_Some (dirs w !! directory))), w).

(** [os.path.join(a, b)]. *)
Definition os_path_join (a b : string) : string :=
  if PyStr.startswith "/" b then b
  else if bool_decide (a = "") || PyStr.endswith_char "/" a then a ++ b
  else a ++ "/" ++ b.

(** [os.path.split(p)]. *)
Definition os_path_split (p : string) : string * string :=
  let i := PyStr.rfind_succ "/" p in
  let head := PyStr.take i p in
  let tail := PyStr.drop i p in
  if negb (bool_decide (head = "")) && negb (PyStr.all_char "/" head)
  then (PyStr.rstrip_char "/" head, tail)
  else (head, tail).

(** [os.path.basename(p)]. *)
Definition os_path_basename (p : string) : string :=
  PyStr.drop (PyStr.rfind_succ "/" p) p.

(** *** The codec *)

(** Modelled from the spec: [universal_load] of [aivol.config], which is not
    among the sources.  It decodes the mapping stored at [path] and reports a
    missing file as an absent result instead of raising. *)
Definition universal_load (path : string) : Py PyObj :=
  λ w, match files w !! path with
       | Some m => (Returned (PyDict m), w)
       | None => (Returned PyNone, w)
       end.

(** Modelled from the spec: what creating or overwriting the file at [path]
    does to the directory listings.  The listing of the file's directory, when
    the world has one, gains the file's name unless it holds it already. *)
Definition create_entry (path : string) (listings : gmap string (list string))
    : gmap string (list string) :=
  let '(directory, name) := os_path_split path in
  match listings !! directory with
  | Some entries =>
      if decide (name ∈ entries) then listings
      else <[directory := entries ++ [name]]> listings
  | None => listings
  end.

(** Modelled from the spec: [universal_store] of [aivol.config], which is not
    among the sources.  It creates or overwrites the file at [path] with the
    given mapping and returns nothing; a file it creates shows in the listing
    of its directory from then on. *)
Definition universal_store (path : string) (state : Metadata) : Py unit :=
  λ w, (Returned (), mkWorld (create_entry path (dirs w)) (<[path := state]> (files w))
                             (stores w ++ [(path, state)]) (calls w)
                             (stdout w) (stderr w)).

(** ** The naming scheme *)

(** [f"{base_name}---{identifier}"], as [Handler.get] and
    [update_and_store_sidecar_files] build a sidecar name. *)
Definition sidecar_name (base_name identifier : string) : string :=
  base_name ++ "---" ++ identifier.

(** ** [class Handler] *)

(** The attributes of a [Handler] instance.  [sidecar_files] is set only when
    the instance was built with [load] true. *)
Record Handler : Type := mkHandler {
  file_path : string;
  directory : string;
  base_name : string;
  sidecar_files : option (list string)
}.

Section Module_sidecar.

Context `{SetIter}.

(** [Handler._find], on the attributes [__init__] has set so far. *)
Definition Handler_find (self_directory self_base_name : string) : Py (list string) :=
  all_files <- os_listdir self_directory ;;
  let matching_files :=
    filter (λ file, PyStr.startswith self_base_name file = true ∧ file ≠ self_base_name)
           all_files in
  let unique_identifiers :=
    foldl (λ (unique_identifiers : gset string) file,
             let identifier := PyStr.replace (self_base_name ++ "---") "" file in
             unique_identifiers ∪ {[ identifier ]})
          ∅ matching_files in
  ret (set_iter unique_identifiers).

(** [Handler.__init__(self, file_path, load)]. *)
Definition Handler_init (file_path : string) (load : bool) : Py Handler :=
  let '(directory, base_name) := os_path_split file_path in
  if load then
    found <- Handler_find directory base_name ;;
    ret (mkHandler file_path directory base_name (Some found))
  else
    ret (mkHandler file_path directory base_name None).

(** A call of the class with positional arguments and an optional keyword
    argument [load]: the arguments are bound to the parameters
    [file_path, load=True] of [__init__] before its body runs. *)
Definition Handler_call (positional : list string) (load : option bool) : Py Handler :=
  match positional, load with
  | [], _ =>
      raise (TypeError "Handler.__init__() missing 1 required positional argument: 'file_path'")
  | [file_path], None => Handler_init file_path true
  | [file_path], Some load => Handler_init file_path load
  | [file_path; load], None => Handler_init file_path (negb (bool_decide (load = "")))
  | [_; _], Some _ =>
      raise (TypeError "Handler.__init__() got multiple values for argument 'load'")
  | _ :: _ :: _ :: _, _ =>
      raise (TypeError ("Handler.__init__() takes from 2 to 3 positional arguments but "
                        ++ pretty (S (length positional)) ++ " were given"))
  end.

(** [Handler.get]. *)
Definition Handler_get (self : Handler) (identifier : string) : Py PyObj :=
  let sidecar_file_path :=
    os_path_join (directory self) (sidecar_name (base_name self) identifier) in
  metadata <- universal_load sidecar_file_path ;;
  ret metadata.

(** The loop of [Handler.get_all]: the local [all_metadata] once every
    identifier of [self.sidecar_files] has been loaded. *)
Definition Handler_get_all_loop (self : Handler) : Py (gmap string PyObj) :=
  match sidecar_files self with
  | None => raise (AttributeError "sidecar_files")
  | Some identifiers =>
      for_each identifiers
        (λ identifier (all_metadata : gmap string PyObj),
           metadata <- Handler_get self identifier ;;
           ret (<[identifier := metadata]> all_metadata))
        ∅
  end.

(** [Handler.get_all].  The body ends after the loop without a [return]
    statement, so the call evaluates to [None]; [Some d] would be a returned
    dict [d]. *)
Definition Handler_get_all (self : Handler) : Py (option (gmap string PyObj)) :=
  all_metadata <- Handler_get_all_loop self ;;
  ret None.

(** ** [list_directory] *)

(** One turn of the loop of [list_directory]. *)
Definition list_directory_step (all_files : gset string) (file : string)
    (acc : gset string * gmap string (list string))
    : gset string * gmap string (list string) :=
  let '(non_sidecar_files, sidecar_files) := acc in
  if PyStr.contains "---" file then
    let '(base_file, _, _) := PyStr.rpartition "---" file in
    if decide (base_file ∈ all_files) then
      (non_sidecar_files,
       <[base_file := default [] (sidecar_files !! base_file) ++ [file]]> sidecar_files)
    else
      (non_sidecar_files ∪ {[ file ]}, sidecar_files)
  else
    (non_sidecar_files ∪ {[ file ]}, sidecar_files).

Definition list_directory (directory : string)
    : Py (gset string * gmap string (list string)) :=
  listing <- os_listdir directory ;;
  let all_files : gset string := list_to_set listing in
  ret (foldl (λ acc file, list_directory_step all_files file acc)
             (∅, ∅) (set_iter all_files)).

(** ** [load_to_pandas] *)

(** Calling a module-level object with one directory argument and unpacking
    the result into two values.  Of the module's globals only
    [list_directory] answers such a call with a pair. *)
Definition call_and_unpack2 (callee : Global) (directory : string)
    : Py (gset string * gmap string (list string)) :=
  match callee with
  | G_list_directory => list_directory directory
  | _ => raise (TypeError "cannot unpack non-iterable object")
  end.

(** The inner loop of [load_to_pandas], over the sidecars of one base file. *)
Definition load_to_pandas_inner (directory : string) (sidecar_handler : Handler)
    (sidecar_file_list : list string) (all_metadata : list Metadata)
    : Py (list Metadata) :=
  for_each sidecar_file_list
    (λ sidecar_file all_metadata,
       let '(_, _, identifier) :=
         PyStr.rpartition "---" (os_path_basename sidecar_file) in
       metadata <- Handler_get sidecar_handler identifier ;;
       if truthy metadata then
         ret (all_metadata ++ [or_empty_dict metadata])
       else
         (sys_stderr_write
            ("Warning: No " ++ identifier ++ " metadata found for '" ++ sidecar_file
             ++ "' in directory '" ++ directory ++ "'" ++ newline) ;;;
          ret all_metadata))
    all_metadata.

(** [load_to_pandas].  A data frame is the list of its rows; the items of
    the dict [sidecar_files] are visited in the order [map_to_list] gives. *)
Definition load_to_pandas (directory identifier : string) : Py (list Metadata) :=
  isdir <- os_path_isdir directory ;;
  if negb isdir then
    (sys_stderr_write
       ("Error: The provided identifier '" ++ identifier
        ++ "' is not a directory." ++ newline) ;;;
     ret [])
  else
    let all_metadata := [] in
    load_directory <- load_global "load_directory" ;;
    classified <- call_and_unpack2 load_directory directory ;;
    let '(non_sidecar_files, sidecar_files) := classified in
    all_metadata <-
      for_each (map_to_list sidecar_files)
        (λ item all_metadata,
           let '(base_file, sidecar_file_list) := item in
           sidecar_handler <- Handler_call [directory; base_file] (Some false) ;;
           load_to_pandas_inner directory sidecar_handler sidecar_file_list all_metadata)
        all_metadata ;;
    let df := all_metadata in
    ret df.

(** ** [update_and_store_sidecar_files] *)

(** [a % b] on Python integers: the result takes the sign of [b], and a zero
    [b] raises. *)
Definition py_mod (a b : Z) : Py Z :=
  if (b =? 0)%Z then raise ZeroDivisionError else ret (a mod b)%Z.

(** The inner loop: it consumes the states the generator produces, counts
    them, and stores every [save_interval]-th one.  The locals [counter] and
    [updated_state] are carried from turn to turn. *)
Definition consume_updates (sidecar_file_path : string) (save_interval : Z)
    (updates_generator : list Metadata) (locals : Z * option Metadata)
    : Py (Z * option Metadata) :=
  for_each updates_generator
    (λ produced locals,
       let '(counter, _) := locals in
       let updated_state := Some produced in
       let counter := (counter + 1)%Z in
       r <- py_mod counter save_interval ;;
       (if (r =? 0)%Z then
          state <- load_local "updated_state" updated_state ;;
          universal_store sidecar_file_path state
        else ret ()) ;;;
       ret (counter, updated_state))
    locals.

(** The body of the outer loop for one primary file.  [function] maps the
    primary path and the initial state to the finite sequence of states its
    generator produces.  The local [updated_state] outlives the turn, so it
    is an argument and a result. *)
Definition update_file (directory identifier : string)
    (function : string → Metadata → list Metadata) (save_interval : Z)
    (total_files : nat) (entry : nat * string) (updated_state : option Metadata)
    : Py (option Metadata) :=
  let '(index, file) := entry in
  print ("update_and_store_sidecar_files: [" ++ pretty (index + 1) ++ "/"
         ++ pretty total_files ++ "] " ++ file) ;;;
  let file_path := os_path_join directory file in
  handler <- Handler_call [file_path] (Some false) ;;
  loaded <- Handler_get handler identifier ;;
  let initial_state := or_empty_dict loaded in
  let sidecar_file_path := sidecar_name file_path identifier in
  let updates_generator := function file_path initial_state in
  let counter := 0%Z in
  locals <- consume_updates sidecar_file_path save_interval updates_generator
                            (counter, updated_state) ;;
  let '(counter, updated_state) := locals in
  r <- py_mod counter save_interval ;;
  (if negb (r =? 0)%Z then
     state <- load_local "updated_state" updated_state ;;
     universal_store sidecar_file_path state
   else ret ()) ;;;
  ret updated_state.

Definition update_and_store_sidecar_files (directory identifier : string)
    (function : string → Metadata → list Metadata) (save_interval : Z) : Py unit :=
  classified <- list_directory directory ;;
  let '(non_sidecar_files, sidecar_files) := classified in
  let total_files := size non_sidecar_files in
  for_each (imap pair (set_iter non_sidecar_files))
           (update_file directory identifier function save_interval total_files)
           None ;;;
  ret ().

(** ** [process_sidecar_files] *)

(** [obj.directory] on a module-level object: none of them has the
    attribute. *)
Definition getattr_directory (obj : Global) : Py string :=
  raise (AttributeError "directory").

(** Invoking the caller's function, noting the call. *)
Definition invoke (function : string → string → Py unit)
    (file_path sidecar_file_path : string) : Py unit :=
  (λ w, (Returned (), mkWorld (dirs w) (files w) (stores w)
                              (calls w ++ [(file_path, sidecar_file_path)])
                              (stdout w) (stderr w))) ;;;
  function file_path sidecar_file_path.

Definition process_sidecar_files (directory identifier : string)
    (function : string → string → Py unit) : Py unit :=
  classified <- list_directory directory ;;
  let '(non_sidecar_files, sidecar_files) := classified in
  for_each (set_iter non_sidecar_files)
    (λ file _,
       let file_path := os_path_join directory file in
       self <- load_global "self" ;;
       self_directory <- getattr_directory self ;;
       let sidecar_file_path :=
         os_path_join self_directory (sidecar_name file_path identifier) in
       invoke function file_path sidecar_file_path)
    ().

End Module_sidecar.

(** ** Vocabulary of the statements *)

(** The candidate primary name of an entry: what precedes its last ["---"]. *)
Definition base_of (file : string) : string :=
  (PyStr.rpartition "---" file).1.1.

(** The test [list_directory] applies to an entry to file it as a sidecar. *)
Definition is_sidecar_in (all_files : gset string) (file : string) : Prop :=
  PyStr.contains "---" file = true ∧ base_of file ∈ all_files.

#[local] Instance is_sidecar_in_dec all_files file : Decision (is_sidecar_in all_files file).
Proof. unfold is_sidecar_in. apply _. Defined.

(** The split of one entry as the classifier performs it: the partition of
    [list_directory] on the last ["---"] with its membership test, paired with
    the identifier that [load_to_pandas] reads off the same partition. *)
Definition split_sidecar_name (all_files : gset string) (file : string)
    : option (string * string) :=
  if PyStr.contains "---" file then
    let '(base_file, _, identifier) := PyStr.rpartition "---" file in
    if decide (base_file ∈ all_files) then Some (base_file, identifier) else None
  else None.

(** The world after one more [universal_store], and after one more progress
    line. *)
Definition stored (path : string) (w : World) (state : Metadata) : World :=
  (universal_store path state w).2.

Definition printed (line : string) (w : World) : World := (print line w).2.

(** The progress line of the [index]-th primary file. *)
Definition progress_line (index total_files : nat) (file : string) : string :=
  "update_and_store_sidecar_files: [" ++ pretty (index + 1) ++ "/"
  ++ pretty total_files ++ "] " ++ file.

(** The state [update_file] hands to the caller's function: what
    [Handler.get] loads for the identifier, or the empty mapping. *)
Definition initial_state_for (w : World) (file_path identifier : string) : Metadata :=
  let '(directory, base_name) := os_path_split file_path in
  or_empty_dict
    match files w !! os_path_join directory (sidecar_name base_name identifier) with
    | Some m => PyDict m
    | None => PyNone
    end.

(** The checkpoints in the words of the specification: every
    [save_interval]-th produced state, counting on from [counter] ... *)
Fixpoint every_nth (save_interval counter : Z) (states : list Metadata) : list Metadata :=
  match states with
  | [] => []
  | s :: rest =>
      (if ((counter + 1) mod save_interval =? 0)%Z then [s] else [])
      ++ every_nth save_interval (counter + 1) rest
  end.

(** ... and, when the number of produced states is not a multiple of
    [save_interval], the final state once more. *)
Definition checkpoints (save_interval : Z) (states : list Metadata) : list Metadata :=
  every_nth save_interval 0 states
  ++ (if (Z.of_nat (length states) mod save_interval =? 0)%Z then []
      else option_list (last states)).

(** The world after the turn of one primary file, for a non-zero interval. *)
Definition after_file (dir identifier : string)
    (function : string → Metadata → list Metadata) (save_interval : Z)
    (total_files : nat) (w : World) (entry : nat * string) : World :=
  let file_path := os_path_join dir entry.2 in
  foldl (stored (sidecar_name file_path identifier))
        (printed (progress_line entry.1 total_files entry.2) w)
        (checkpoints save_interval
           (function file_path (initial_state_for w file_path identifier))).

(** A directory with the single file [a.txt], and a function that produces
    seven states for it. *)
Definition one_file_world : World :=
  mkWorld {[ "d" := ["a.txt"] ]} ∅ [] [] [] [].

Definition numbered (n : nat) : Metadata := {[ "n" := pretty n ]}.

Definition seven_states (file_path : string) (initial_state : Metadata) : list Metadata :=
  map numbered [1; 2; 3; 4; 5; 6; 7].

Definition no_states (file_path : string) (initial_state : Metadata) : list Metadata := [].

(** The directory of the classifier example. *)
Definition three_entry_world : World :=
  mkWorld {[ "d" := ["a.txt"; "a.txt---meta"; "b.txt---meta"] ]} ∅ [] [] [] [].

(** The filter of [Handler._find]. *)
Definition matches_base_name (self_base_name file : string) : Prop :=
  PyStr.startswith self_base_name file = true ∧ file ≠ self_base_name.

(** A directory in which two different sidecar names of [a] lose the same
    text to the replacement. *)
Definition collapsing_world : World :=
  mkWorld {[ "d" := ["a"; "a---x"; "a---a---x"] ]} ∅ [] [] [] [].

(** A directory where [photo.jpg] has a neighbour that only shares its base
    name as a prefix. *)
Definition backup_world : World :=
  mkWorld {[ "d" := ["photo.jpg"; "photo.jpg.bak"] ]} ∅ [] [] [] [].

(** A primary file with one sidecar that holds one key. *)
Definition tagged_world : World :=
  mkWorld {[ "d" := ["photo.jpg"; "photo.jpg---tags.json"] ]}
          {[ "d/photo.jpg---tags.json" := {[ "label" := "cat" ]} ]} [] [] [] [].

(** The directory of the classifier example, with readable metadata in the
    sidecar of [a.txt]. *)
Definition readable_world : World :=
  mkWorld {[ "d" := ["a.txt"; "a.txt---meta"] ]}
          {[ "d/a.txt---meta" := {[ "label" := "cat" ]} ]} [] [] [] [].

(** Another admissible order, the reverse of the first. *)
Definition reversed_iter : SetIter :=
  {| set_iter := λ X, reverse (elements X);
     set_iter_perm := λ X, reverse_Permutation (elements X) |}.

(** Two directories with the same entries in different listing orders, one
    of them listed with a repetition. *)
Definition shuffled_world : World :=
  mkWorld {[ "e" := ["a---a---x"; "a"; "a---x"; "a"];
             "f" := ["b.txt---meta"; "a.txt"; "a.txt---meta"; "a.txt"] ]}
          ∅ [] [] [] [].

Definition two_states (file_path : string) (initial_state : Metadata) : list Metadata :=
  map numbered [1; 2].

Definition empty_directory_world : World :=
  mkWorld {[ "d" := [] ]} ∅ [] [] [] [].

(** A directory in which a sidecar has a sidecar of its own. *)
Definition nested_world : World :=
  mkWorld {[ "d" := ["a"; "a---b"; "a---b---c"] ]} ∅ [] [] [] [].

(** * Properties *)

(** ** The primitives on examples *)

Example rpartition_last :
  PyStr.rpartition "---" "a---b---c" = ("a---b", "---", "c").
Proof. reflexivity. Qed.

Example rpartition_absent :
  PyStr.rpartition "---" "a--b" = ("", "", "a--b").
Proof. reflexivity. Qed.

Example rpartition_run_of_dashes :
  PyStr.rpartition "---" "a----b" = ("a-", "---", "b").
Proof. reflexivity. Qed.

Example replace_every_occurrence :
  PyStr.replace "a---" "" "a---a---x" = "x".
Proof. reflexivity. Qed.

Example replace_not_overlapping :
  PyStr.replace "aa" "b" "aaa" = "ba".
Proof. reflexivity. Qed.

Example rstrip_slashes : PyStr.rstrip_char "/" "a//b//" = "a//b".
Proof. reflexivity. Qed.

Example join_plain : os_path_join "data" "a.txt" = "data/a.txt".
Proof. reflexivity. Qed.

Example split_plain : os_path_split "data/sub/a.txt" = ("data/sub", "a.txt").
Proof. reflexivity. Qed.

Example split_root : os_path_split "/a.txt" = ("/", "a.txt").
Proof. reflexivity. Qed.

Example split_no_directory : os_path_split "a.txt" = ("", "a.txt").
Proof. reflexivity. Qed.

(** ** Running [Py] computations *)

Lemma bind_returned {A B} (m : Py A) (k : A → Py B) w a w' :
  m w = (Returned a, w') → bind m k w = k a w'.
Proof. intros Hm. unfold bind. by rewrite Hm. Qed.

Lemma bind_raised {A B} (m : Py A) (k : A → Py B) w e w' :
  m w = (Raised e, w') → bind m k w = (Raised e, w').
Proof. intros Hm. unfold bind. by rewrite Hm. Qed.

Lemma os_listdir_returned w directory listing :
  dirs w !! directory = Some listing →
  os_listdir directory w = (Returned listing, w).
Proof. intros Hd. unfold os_listdir. by rewrite Hd. Qed.

Lemma set_iter_NoDup `{SetIter} (X : gset string) : NoDup (set_iter X).
Proof. rewrite set_iter_perm. apply NoDup_elements. Qed.

Lemma elem_of_set_iter `{SetIter} (X : gset string) x : x ∈ set_iter X ↔ x ∈ X.
Proof. rewrite set_iter_perm. apply elem_of_elements. Qed.

(** ** The directory classifier *)

Lemma list_directory_step_sidecar all_files file ns (sc : gmap string (list string)) :
  is_sidecar_in all_files file →
  list_directory_step all_files file (ns, sc)
  = (ns, <[base_of file := default [] (sc !! base_of file) ++ [file]]> sc).
Proof.
  intros [Hc Hb]. unfold list_directory_step, base_of in *. rewrite Hc.
  destruct (PyStr.rpartition "---" file) as [[base_file sep] tail]; simpl in *.
  by rewrite decide_True.
Qed.

Lemma list_directory_step_primary all_files file ns (sc : gmap string (list string)) :
  ¬ is_sidecar_in all_files file →
  list_directory_step all_files file (ns, sc) = (ns ∪ {[ file ]}, sc).
Proof.
  intros Hn. unfold list_directory_step, is_sidecar_in, base_of in *.
  destruct (PyStr.contains "---" file); [|done].
  destruct (PyStr.rpartition "---" file) as [[base_file sep] tail]; simpl in *.
  rewrite decide_False; [done|]. intros Hin. by apply Hn.
Qed.

(** What the loop has gathered after a run over [l], from any starting point. *)
Lemma list_directory_loop all_files l ns (sc : gmap string (list string)) :
  let r := foldl (λ acc file, list_directory_step all_files file acc) (ns, sc) l in
  r.1 = ns ∪ list_to_set (filter (λ f, ¬ is_sidecar_in all_files f) l)
  ∧ (∀ b, default [] (r.2 !! b)
          = default [] (sc !! b)
            ++ filter (λ f, is_sidecar_in all_files f ∧ base_of f = b) l)
  ∧ ((∀ b, sc !! b ≠ Some []) → ∀ b, r.2 !! b ≠ Some []).
Proof.
  revert ns sc. induction l as [|file l IH]; intros ns sc.
  - cbn. split_and!; [set_solver | intros b; by rewrite app_nil_r | done].
  - cbn [foldl]. destruct (decide (is_sidecar_in all_files file)) as [Hs|Hs].
    + rewrite (list_directory_step_sidecar _ _ _ _ Hs).
      destruct (IH ns (<[base_of file := default [] (sc !! base_of file) ++ [file]]> sc))
        as (IH1 & IH2 & IH3).
      split_and!.
      * rewrite IH1. rewrite filter_cons_False; [done|]. by intros Hn.
      * intros b. rewrite IH2. destruct (decide (base_of file = b)) as [<-|Hne].
        -- rewrite lookup_insert_eq. simpl.
           rewrite filter_cons_True; [|done]. by rewrite <- app_assoc.
        -- rewrite lookup_insert_ne; [|done].
           rewrite filter_cons_False; [done|]. by intros [_ ?].
      * intros Hsc. apply IH3. intros b.
        destruct (decide (base_of file = b)) as [<-|Hne].
        -- rewrite lookup_insert_eq. intros [=Heq]. by destruct (default [] _).
        -- rewrite lookup_insert_ne; [apply Hsc | done].
    + rewrite (list_directory_step_primary _ _ _ _ Hs).
      destruct (IH (ns ∪ {[ file ]}) sc) as (IH1 & IH2 & IH3).
      split_and!.
      * rewrite IH1. rewrite filter_cons_True; [|done]. set_solver.
      * intros b. rewrite IH2. rewrite filter_cons_False; [done|]. by intros [? _].
      * done.
Qed.

(** The classification of a directory that exists: the call returns, leaves
    the world alone, and files every entry by the sidecar test. *)
Lemma list_directory_spec `{SetIter} w directory listing :
  dirs w !! directory = Some listing →
  ∃ non_sidecar_files sidecar_files,
    list_directory directory w = (Returned (non_sidecar_files, sidecar_files), w)
    ∧ (∀ file, file ∈ non_sidecar_files
               ↔ file ∈ listing ∧ ¬ is_sidecar_in (list_to_set listing) file)
    ∧ (∀ b fl, sidecar_files !! b = Some fl
               ↔ fl ≠ [] ∧
                 fl = filter (λ f, is_sidecar_in (list_to_set listing) f ∧ base_of f = b)
                             (set_iter (list_to_set listing))).
Proof.
  intros Hd.
  pose proof (list_directory_loop (list_to_set listing)
                (set_iter (list_to_set listing)) ∅ ∅) as Hloop.
  destruct (foldl _ _ _) as [ns sc] eqn:Hfold. simpl in Hloop.
  destruct Hloop as (Hns & Hsc & Hne).
  exists ns, sc. split_and!.
  - unfold list_directory. rewrite (bind_returned _ _ _ _ _ (os_listdir_returned _ _ _ Hd)).
    unfold ret. by rewrite Hfold.
  - intros file. rewrite Hns, elem_of_union, elem_of_list_to_set, list_elem_of_filter,
      elem_of_set_iter, elem_of_list_to_set.
    split; [intros [[]%elem_of_empty|[? ?]]; done | intros [? ?]; right; done].
  - intros b fl. specialize (Hsc b). rewrite lookup_empty in Hsc. simpl in Hsc.
    specialize (Hne (λ b', ltac:(by rewrite lookup_empty)) b).
    split.
    + intros Hb. rewrite Hb in Hsc, Hne. simpl in Hsc. split; [congruence | done].
    + intros [Hnil ->]. destruct (sc !! b) as [fl'|] eqn:Hb; simpl in Hsc.
      * by rewrite Hsc.
      * by rewrite <- Hsc in Hnil.
Qed.

(** C5, amended.  For every listing, [list_directory] files every entry
    exactly once, either as a primary or as a sidecar of exactly one entry of
    the listing, which need not be a primary itself: an entry that contains
    ["---"] and whose text before the last ["---"] is itself an entry is a
    sidecar of that entry and of no other, and is not a primary; every other
    entry (without ["---"], or with a prefix that is not an entry) is a
    primary and in no sidecar list.  No sidecar list repeats an entry or is
    empty, every owner of a sidecar list is an entry, and nothing but entries
    is filed.  For the listing [a.txt, a.txt---meta, b.txt---meta], [a.txt] is
    primary with the sidecar list [[a.txt---meta]] and [b.txt---meta] is
    primary. *)
Theorem list_directory_partition `{SetIter} w directory listing :
  dirs w !! directory = Some listing →
  ∃ non_sidecar_files sidecar_files,
    list_directory directory w = (Returned (non_sidecar_files, sidecar_files), w)
    ∧ (∀ file, file ∈ listing →
         PyStr.contains "---" file = true ∧ base_of file ∈ listing →
         (file ∉ non_sidecar_files)
         ∧ (∃ fl, sidecar_files !! base_of file = Some fl ∧ file ∈ fl)
         ∧ (∀ b fl, sidecar_files !! b = Some fl → file ∈ fl → b = base_of file))
    ∧ (∀ file, file ∈ listing →
         ¬ (PyStr.contains "---" file = true ∧ base_of file ∈ listing) →
         file ∈ non_sidecar_files
         ∧ (∀ b fl, sidecar_files !! b = Some fl → file ∉ fl))
    ∧ (∀ file, file ∈ listing → PyStr.contains "---" file = false →
         file ∈ non_sidecar_files)
    ∧ (∀ b fl, sidecar_files !! b = Some fl → NoDup fl)
    ∧ (∀ file, file ∈ non_sidecar_files → file ∈ listing)
    ∧ (∀ b fl file, sidecar_files !! b = Some fl → file ∈ fl → file ∈ listing)
    ∧ (∀ b fl, sidecar_files !! b = Some fl → b ∈ listing ∧ fl ≠ [])
    ∧ (listing = ["a.txt"; "a.txt---meta"; "b.txt---meta"] →
         "a.txt" ∈ non_sidecar_files
         ∧ sidecar_files !! "a.txt" = Some ["a.txt---meta"]
         ∧ "b.txt---meta" ∈ non_sidecar_files).
Proof.
  intros Hd. destruct (list_directory_spec w directory listing Hd)
    as (ns & sc & Hrun & Hns & Hsc).
  assert (Hside : ∀ file, is_sidecar_in (list_to_set listing) file
                          ↔ PyStr.contains "---" file = true ∧ base_of file ∈ listing).
  { intros file. unfold is_sidecar_in. by rewrite elem_of_list_to_set. }
  assert (Hmem : ∀ b fl file, sc !! b = Some fl →
            (file ∈ fl ↔ (is_sidecar_in (list_to_set listing) file ∧ base_of file = b)
                          ∧ file ∈ listing)).
  { intros b fl file [_ ->]%Hsc.
    by rewrite list_elem_of_filter, elem_of_set_iter, elem_of_list_to_set. }
  assert (Hin : ∀ file, file ∈ listing → is_sidecar_in (list_to_set listing) file →
            ∃ fl, sc !! base_of file = Some fl ∧ file ∈ fl).
  { intros file Hfile Hs. eexists. split.
    - apply Hsc. split; [|reflexivity]. intros Hnil.
      assert (file ∈ filter (λ f, is_sidecar_in (list_to_set listing) f
                                  ∧ base_of f = base_of file)
                            (set_iter (list_to_set listing))) as Hf.
      { by rewrite list_elem_of_filter, elem_of_set_iter, elem_of_list_to_set. }
      rewrite Hnil in Hf. by apply elem_of_nil in Hf.
    - by rewrite list_elem_of_filter, elem_of_set_iter, elem_of_list_to_set. }
  assert (Hdup : ∀ b fl, sc !! b = Some fl → NoDup fl).
  { intros b fl [_ ->]%Hsc. apply NoDup_filter, set_iter_NoDup. }
  exists ns, sc. split_and!; try done.
  - intros file Hfile Hs%Hside. split_and!.
    + rewrite Hns. by intros [_ ?].
    + by apply Hin.
    + intros b fl Hb Hf. by destruct (proj1 (Hmem b fl file Hb) Hf) as [[_ ?] _].
  - intros file Hfile Hs. rewrite <- Hside in Hs. split.
    + by apply Hns.
    + intros b fl Hb Hf. by destruct (proj1 (Hmem b fl file Hb) Hf) as [[? _] _].
  - intros file Hfile Hc. apply Hns. split; [done|]. intros [Hc' _]. congruence.
  - intros file. rewrite Hns. by intros [? _].
  - intros b fl file Hb Hf. by destruct (proj1 (Hmem b fl file Hb) Hf) as [_ ?].
  - intros b fl Hb. pose proof (proj1 (Hsc b fl) Hb) as [Hnil _]. split; [|done].
    destruct fl as [|f fl']; [done|].
    destruct (proj1 (Hmem b _ f Hb) (list_elem_of_here _ _)) as [[[_ Hbl] Hbase] _].
    rewrite <- Hbase. by apply elem_of_list_to_set in Hbl.
  - intros ->. split_and!.
    + apply Hns. split; [set_solver|]. intros [Hc _]. by vm_compute in Hc.
    + destruct (Hin "a.txt---meta") as (fl & Hfl & Hf).
      { set_solver. }
      { split; [done|]. vm_compute. set_solver. }
      change (base_of "a.txt---meta") with "a.txt" in Hfl. rewrite Hfl. f_equal.
      apply Permutation_singleton_r, NoDup_Permutation;
        [by eapply Hdup | apply NoDup_singleton |].
      intros file. rewrite (Hmem _ _ _ Hfl), list_elem_of_singleton.
      split; [|intros ->; split; [split; [|done]|set_solver];
               split; [done | vm_compute; set_solver]].
      intros [[[Hc _] Hb] Hl].
      set_unfold in Hl. destruct Hl as [->|[->|[->|[]]]]; [by vm_compute in Hc | done |].
      by vm_compute in Hb.
    + apply Hns. split; [set_solver|]. intros [_ Hb].
      change (base_of "b.txt---meta") with "b.txt" in Hb.
      set_unfold in Hb. destruct Hb as [Hb|[Hb|[Hb|[]]]]; discriminate.
Qed.

(** ** The naming scheme and its inverse *)

Lemma split_sidecar_name_Some all_files file base_file identifier :
  split_sidecar_name all_files file = Some (base_file, identifier) →
  is_sidecar_in all_files file ∧ base_of file = base_file.
Proof.
  unfold split_sidecar_name, is_sidecar_in, base_of.
  destruct (PyStr.contains "---" file); [|done].
  destruct (PyStr.rpartition "---" file) as [[b sep] tail]; simpl.
  case_decide; [|done]. intros [= <- <-]. done.
Qed.

Lemma rsplit_last_None sep s :
  PyStr.contains sep s = false → PyStr.rsplit_last sep s = None.
Proof.
  induction s as [|c s IH]; [done|].
  cbn [PyStr.contains PyStr.rsplit_last]. intros [Hhere Hlater]%orb_false_elim.
  by rewrite (IH Hlater), Hhere.
Qed.

Lemma startswith_cons a p b s :
  PyStr.startswith (String a p) (String b s)
  = if Ascii.eqb a b then PyStr.startswith p s else false.
Proof. reflexivity. Qed.

Lemma contains_cons sep c s :
  PyStr.contains sep (String c s)
  = PyStr.startswith sep (String c s) || PyStr.contains sep s.
Proof. reflexivity. Qed.

Lemma rsplit_last_cons sep c s :
  PyStr.rsplit_last sep (String c s)
  = match PyStr.rsplit_last sep s with
    | Some (head, tail) => Some (String c head, tail)
    | None =>
        if PyStr.startswith sep (String c s)
        then Some (EmptyString, PyStr.drop (String.length sep) (String c s))
        else None
    end.
Proof. reflexivity. Qed.

(** The last ["---"] of [B---I] is the separator, as soon as [I] neither
    contains ["---"] nor begins with a dash. *)
Lemma rsplit_last_sidecar_name B I :
  PyStr.contains "---" I = false →
  PyStr.startswith "-" I = false →
  PyStr.rsplit_last "---" (sidecar_name B I) = Some (B, I).
Proof.
  intros Hc Hd. unfold sidecar_name. induction B as [|c B IH].
  - change ("" +:+ "---" +:+ I) with (String "-" (String "-" (String "-" I))).
    destruct I as [|a I']; [reflexivity|].
    rewrite startswith_cons in Hd.
    destruct (Ascii.eqb "-" a) eqn:Ha; [done|]. clear Hd.
    assert (PyStr.rsplit_last "---" (String a I') = None) as H0
      by (by apply rsplit_last_None).
    rewrite (rsplit_last_cons _ "-" (String "-" (String "-" (String a I')))).
    rewrite (rsplit_last_cons _ "-" (String "-" (String a I'))).
    rewrite (rsplit_last_cons _ "-" (String a I')), H0.
    rewrite !startswith_cons, !Ascii.eqb_refl, Ha. reflexivity.
  - change ((String c B) +:+ "---" +:+ I) with (String c (B +:+ "---" +:+ I)).
    rewrite rsplit_last_cons. by rewrite IH.
Qed.

Lemma contains_sidecar_name B I : PyStr.contains "---" (sidecar_name B I) = true.
Proof.
  unfold sidecar_name. induction B as [|c B IH]; [done|].
  change ((String c B) +:+ "---" +:+ I) with (String c (B +:+ "---" +:+ I)).
  cbn [PyStr.contains]. rewrite IH. apply orb_true_r.
Qed.

(** C4, amended.  For every base name [B] without ["---"] and every identifier
    [I] that neither contains ["---"] nor begins with a dash, the name
    [B---I] partitions on its last ["---"] into [(B, "---", I)]; against a
    listing that contains [B] the split recovers [(B, I)] and the classifier's
    test files [B---I] as a sidecar of [B]. *)
Theorem naming_invertible (all_files : gset string) (B I : string) :
  PyStr.contains "---" B = false →
  PyStr.contains "---" I = false →
  PyStr.startswith "-" I = false →
  B ∈ all_files →
  PyStr.rpartition "---" (sidecar_name B I) = (B, "---", I)
  ∧ split_sidecar_name all_files (sidecar_name B I) = Some (B, I)
  ∧ is_sidecar_in all_files (sidecar_name B I)
  ∧ base_of (sidecar_name B I) = B.
Proof.
  intros _ Hc Hd HB.
  assert (PyStr.rpartition "---" (sidecar_name B I) = (B, "---", I)) as Hp.
  { unfold PyStr.rpartition. by rewrite rsplit_last_sidecar_name. }
  assert (split_sidecar_name all_files (sidecar_name B I) = Some (B, I)) as Hs.
  { unfold split_sidecar_name. rewrite contains_sidecar_name, Hp.
    by rewrite decide_True. }
  split_and!; [done | done | |]; by apply split_sidecar_name_Some in Hs as [? ?].
Qed.

Lemma naming_invertible_witness :
  PyStr.rpartition "---" (sidecar_name "photo.jpg" "tags.json")
    = ("photo.jpg", "---", "tags.json")
  ∧ split_sidecar_name {[ "photo.jpg"; "photo.jpg---tags.json" ]}
      (sidecar_name "photo.jpg" "tags.json") = Some ("photo.jpg", "tags.json")
  ∧ is_sidecar_in {[ "photo.jpg"; "photo.jpg---tags.json" ]}
      (sidecar_name "photo.jpg" "tags.json")
  ∧ base_of (sidecar_name "photo.jpg" "tags.json") = "photo.jpg".
Proof.
  apply (naming_invertible {[ "photo.jpg"; "photo.jpg---tags.json" ]}
           "photo.jpg" "tags.json");
    [reflexivity | reflexivity | reflexivity | set_solver].
Defined.

(** C4 as stated fails: with a base name free of ["---"] present in the
    listing, an identifier that contains ["---"] or begins with a dash is not
    recovered, because the partition is on the last ["---"]. *)
Lemma naming_not_invertible :
  PyStr.contains "---" "photo.jpg" = false
  ∧ "photo.jpg" ∈ ({[ "photo.jpg"; "photo.jpg---v1---tags.json" ]} : gset string)
  ∧ PyStr.rpartition "---" (sidecar_name "photo.jpg" "v1---tags.json")
    = ("photo.jpg---v1", "---", "tags.json")
  ∧ split_sidecar_name {[ "photo.jpg"; "photo.jpg---v1---tags.json" ]}
      (sidecar_name "photo.jpg" "v1---tags.json") = None
  ∧ PyStr.contains "---" "a" = false
  ∧ PyStr.contains "---" "-b" = false
  ∧ "a" ∈ ({[ "a"; "a-"; "a----b" ]} : gset string)
  ∧ split_sidecar_name {[ "a"; "a-"; "a----b" ]} (sidecar_name "a" "-b")
    = Some ("a-", "b").
Proof.
  split_and!; try reflexivity; set_solver.
Qed.

(** ** The update driver *)

Lemma consume_updates_cons path save_interval s rest counter us w :
  save_interval ≠ 0%Z →
  consume_updates path save_interval (s :: rest) (counter, us) w
  = consume_updates path save_interval rest ((counter + 1)%Z, Some s)
      (foldl (stored path) w
             (if ((counter + 1) mod save_interval =? 0)%Z then [s] else [])).
Proof.
  intros Hsi. unfold consume_updates. cbn [for_each].
  unfold bind at 1. unfold bind at 1. unfold bind at 1.
  unfold py_mod. destruct (Z.eqb_spec save_interval 0) as [|_]; [done|]. unfold ret at 1.
  destruct ((counter + 1) mod save_interval =? 0)%Z; reflexivity.
Qed.

Lemma consume_updates_nonzero path save_interval states counter us w :
  save_interval ≠ 0%Z →
  consume_updates path save_interval states (counter, us) w
  = (Returned ((counter + Z.of_nat (length states))%Z,
               from_option Some us (last states)),
     foldl (stored path) w (every_nth save_interval counter states)).
Proof.
  intros Hsi. revert counter us w.
  induction states as [|s rest IH]; intros counter us w.
  - cbn. by rewrite Z.add_0_r.
  - rewrite consume_updates_cons by done. rewrite IH.
    cbn [every_nth]. rewrite foldl_app.
    replace (counter + 1 + Z.of_nat (length rest))%Z
      with (counter + Z.of_nat (length (s :: rest)))%Z by (cbn [length]; lia).
    replace (from_option Some (Some s) (last rest))
      with (from_option Some us (last (s :: rest))); [done|].
    destruct rest as [|s' rest']; [done|]. rewrite last_cons_cons.
    destruct (last (s' :: rest')) eqn:Hlast; [done|]. by apply last_None in Hlast.
Qed.

(** The turn of the outer loop up to the consumption of the generator. *)
Lemma update_file_eq `{SetIter} dir identifier function save_interval
    total_files index file us w :
  update_file dir identifier function save_interval total_files (index, file) us w
  = let file_path := os_path_join dir file in
    let sidecar_file_path := sidecar_name file_path identifier in
    let w1 := printed (progress_line index total_files file) w in
    bind (consume_updates sidecar_file_path save_interval
            (function file_path (initial_state_for w file_path identifier))
            (0%Z, us))
         (λ locals,
            let '(counter, updated_state) := locals in
            bind (py_mod counter save_interval)
              (λ r, bind (if negb (r =? 0)%Z then
                            bind (load_local "updated_state" updated_state)
                                 (λ state, universal_store sidecar_file_path state)
                          else ret ())
                         (λ _, ret updated_state)))
         w1.
Proof.
  unfold update_file, initial_state_for, Handler_call, Handler_init, Handler_get.
  cbv zeta. unfold bind at 1. cbn [print].
  destruct (os_path_split (os_path_join dir file)) as [d b].
  unfold bind at 1. unfold ret at 1. unfold bind at 1. unfold bind at 1.
  unfold universal_load. cbn [files directory base_name].
  destruct (files w !! os_path_join d (sidecar_name b identifier)); reflexivity.
Qed.

Lemma stores_foldl_stored path states w :
  stores (foldl (stored path) w states) = stores w ++ map (pair path) states.
Proof.
  revert w. induction states as [|s rest IH]; intros w; cbn [foldl map].
  - by rewrite app_nil_r.
  - rewrite IH. cbn [stored universal_store snd stores]. by rewrite <- app_assoc.
Qed.

Lemma files_foldl_stored path states w :
  files (foldl (stored path) w states)
  = from_option (λ s, <[path := s]> (files w)) (files w) (last states).
Proof.
  revert w. induction states as [|s rest IH]; intros w; cbn [foldl]; [done|].
  rewrite IH. destruct rest as [|s' rest']; [done|]. rewrite last_cons_cons.
  destruct (last (s' :: rest')) eqn:Hlast; [|by apply last_None in Hlast].
  cbn. by rewrite insert_insert_eq.
Qed.

(** One turn of the outer loop under a non-zero [save_interval]: it returns,
    and what it leaves is the progress line and the checkpoints, in order. *)
Lemma update_file_nonzero `{SetIter} dir identifier function save_interval
    total_files index file us w :
  save_interval ≠ 0%Z →
  let file_path := os_path_join dir file in
  let states := function file_path (initial_state_for w file_path identifier) in
  update_file dir identifier function save_interval total_files (index, file) us w
  = (Returned (from_option Some us (last states)),
     foldl (stored (sidecar_name file_path identifier))
           (printed (progress_line index total_files file) w)
           (checkpoints save_interval states)).
Proof.
  intros Hsi file_path states. rewrite update_file_eq. cbv zeta.
  fold file_path. fold states.
  rewrite (bind_returned _ _ _ _ _ (consume_updates_nonzero _ _ _ _ _ _ Hsi)).
  unfold py_mod, checkpoints. destruct (Z.eqb_spec save_interval 0) as [|_]; [done|].
  unfold bind at 1. unfold ret at 1. rewrite Z.add_0_l, foldl_app.
  destruct (Z.eqb_spec (Z.of_nat (length states) mod save_interval) 0) as [Hz|Hnz].
  - reflexivity.
  - destruct (last states) as [s|] eqn:Hlast.
    + reflexivity.
    + apply last_None in Hlast. rewrite Hlast in Hnz. by rewrite Zmod_0_l in Hnz.
Qed.

(** One turn of the outer loop under a zero [save_interval]: whatever the
    function produces, the turn ends in the division error, after the progress
    line and before any store. *)
Lemma update_file_zero `{SetIter} dir identifier function total_files index file us w :
  update_file dir identifier function 0 total_files (index, file) us w
  = (Raised ZeroDivisionError, printed (progress_line index total_files file) w).
Proof.
  rewrite update_file_eq. cbv zeta.
  destruct (function _ _) as [|s rest]; reflexivity.
Qed.

Lemma for_each_update_file_nonzero `{SetIter} dir identifier function save_interval
    total_files entries us w :
  save_interval ≠ 0%Z →
  ∃ us',
    for_each entries (update_file dir identifier function save_interval total_files) us w
    = (Returned us',
       foldl (after_file dir identifier function save_interval total_files) w entries).
Proof.
  intros Hsi. revert us w. induction entries as [|[index file] rest IH]; intros us w.
  - by exists us.
  - cbn [for_each foldl].
    rewrite (bind_returned _ _ _ _ _
               (update_file_nonzero dir identifier function save_interval
                  total_files index file us w Hsi)).
    apply IH.
Qed.

(** The driver under a non-zero interval, on a directory that exists: it
    returns, and the world it leaves is the one its turns leave in order. *)
Lemma update_and_store_nonzero `{SetIter} dir identifier function save_interval
    w non_sidecar_files sidecar_files :
  save_interval ≠ 0%Z →
  list_directory dir w = (Returned (non_sidecar_files, sidecar_files), w) →
  update_and_store_sidecar_files dir identifier function save_interval w
  = (Returned (),
     foldl (after_file dir identifier function save_interval (size non_sidecar_files))
           w (imap pair (set_iter non_sidecar_files))).
Proof.
  intros Hsi Hls. unfold update_and_store_sidecar_files.
  rewrite (bind_returned _ _ _ _ _ Hls).
  destruct (for_each_update_file_nonzero dir identifier function save_interval
              (size non_sidecar_files) (imap pair (set_iter non_sidecar_files)) None w Hsi)
    as [us' Hrun].
  by rewrite (bind_returned _ _ _ _ _ Hrun).
Qed.

Lemma set_iter_singleton `{SetIter} (x : string) : set_iter {[ x ]} = [x].
Proof.
  apply Permutation_singleton_r. rewrite set_iter_perm. by rewrite elements_singleton.
Qed.

(** C1.  With [save_interval = 3], in the turn of a primary file for which the
    function produces exactly the seven states [s1 .. s7], the driver stores to
    the sidecar path exactly three times: [s3] once three states have been
    consumed, [s6] once six have, and [s7] after exhaustion; the sidecar then
    holds [s7].  While the generator is consumed, after [k] states exactly
    [k / 3] stores have happened.  On a directory whose only primary is that
    file, the whole call returns with these three stores. *)
Theorem save_interval_exactness `{SetIter} dir identifier function total_files
    index file us w (s1 s2 s3 s4 s5 s6 s7 : Metadata) :
  let file_path := os_path_join dir file in
  let sidecar_file_path := sidecar_name file_path identifier in
  function file_path (initial_state_for w file_path identifier)
    = [s1; s2; s3; s4; s5; s6; s7] →
  (∃ w',
     update_file dir identifier function 3 total_files (index, file) us w
       = (Returned (Some s7), w')
     ∧ stores w' = stores w ++ [(sidecar_file_path, s3); (sidecar_file_path, s6);
                                (sidecar_file_path, s7)]
     ∧ files w' !! sidecar_file_path = Some s7)
  ∧ (∀ k : nat, (k ≤ 7)%nat →
       stores (consume_updates sidecar_file_path 3
                 (take k [s1; s2; s3; s4; s5; s6; s7]) (0%Z, us)
                 (printed (progress_line index total_files file) w)).2
       = stores w ++ map (pair sidecar_file_path) (take (k / 3)%nat [s3; s6]))
  ∧ (∀ sidecar_files,
       list_directory dir w = (Returned ({[ file ]}, sidecar_files), w) →
       ∃ w',
         update_and_store_sidecar_files dir identifier function 3 w = (Returned (), w')
         ∧ stores w' = stores w ++ [(sidecar_file_path, s3); (sidecar_file_path, s6);
                                    (sidecar_file_path, s7)]
         ∧ files w' !! sidecar_file_path = Some s7).
Proof.
  intros file_path sidecar_file_path Hstates.
  assert (Hcp : checkpoints 3 [s1; s2; s3; s4; s5; s6; s7] = [s3; s6; s7]) by reflexivity.
  split_and!.
  - eexists. split; [|split].
    + rewrite update_file_nonzero by done. fold file_path. by rewrite Hstates.
    + fold sidecar_file_path. by rewrite Hcp, stores_foldl_stored.
    + fold sidecar_file_path. rewrite Hcp, files_foldl_stored. cbn.
      by rewrite lookup_insert_eq.
  - intros k Hk. rewrite consume_updates_nonzero by done. cbn [snd].
    rewrite stores_foldl_stored.
    do 8 (destruct k as [|k]; [reflexivity|]). lia.
  - intros sidecar_files Hls. eexists. split; [|split].
    + by apply (update_and_store_nonzero dir identifier function 3 w {[ file ]} sidecar_files).
    + rewrite set_iter_singleton. cbn [imap foldl]. unfold after_file. cbn [fst snd].
      fold file_path. fold sidecar_file_path. rewrite Hstates, Hcp.
      by rewrite stores_foldl_stored.
    + rewrite set_iter_singleton. cbn [imap foldl]. unfold after_file. cbn [fst snd].
      fold file_path. fold sidecar_file_path. rewrite Hstates, Hcp.
      rewrite files_foldl_stored. cbn. by rewrite lookup_insert_eq.
Qed.

Lemma save_interval_exactness_witness :
  ∃ w',
    @update_file elements_iter "d" "meta" seven_states 3 1 (0, "a.txt") None one_file_world
      = (Returned (Some (numbered 7)), w')
    ∧ stores w' = [("d/a.txt---meta", numbered 3); ("d/a.txt---meta", numbered 6);
                   ("d/a.txt---meta", numbered 7)]
    ∧ files w' !! "d/a.txt---meta" = Some (numbered 7).
Proof.
  destruct (@save_interval_exactness elements_iter "d" "meta" seven_states 1 0 "a.txt"
              None one_file_world (numbered 1) (numbered 2) (numbered 3) (numbered 4)
              (numbered 5) (numbered 6) (numbered 7) eq_refl)
    as [(w' & Hrun & Hstores & Hfiles) _].
  exists w'. split; [exact Hrun | split; [exact Hstores | exact Hfiles]].
Defined.

Lemma foldl_after_file_no_states `{SetIter} dir identifier function save_interval
    total_files entries w :
  save_interval ≠ 0%Z →
  (∀ entry initial_state, entry ∈ entries →
     function (os_path_join dir entry.2) initial_state = []) →
  let w' := foldl (after_file dir identifier function save_interval total_files) w entries in
  stores w' = stores w ∧ files w' = files w ∧ dirs w' = dirs w.
Proof.
  intros Hsi. revert w. induction entries as [|entry rest IH]; intros w Hnone; [done|].
  assert (after_file dir identifier function save_interval total_files w entry
          = printed (progress_line entry.1 total_files entry.2) w) as Hturn.
  { unfold after_file. rewrite Hnone by apply list_elem_of_here.
    unfold checkpoints. cbn [every_nth length Z.of_nat app]. by rewrite Zmod_0_l. }
  cbn [foldl]. rewrite Hturn.
  destruct (IH (printed (progress_line entry.1 total_files entry.2) w)) as (? & ? & ?).
  { intros e i He. apply Hnone. by apply list_elem_of_further. }
  done.
Qed.

(** C7, amended.  For every non-zero [save_interval]: in the turn of a primary
    file for which the function produces no state, the driver stores nothing (the
    files, and so the sidecar, are as before) and the turn returns; the call as
    a whole returns on every directory that exists, and it leaves the stores
    and the files untouched when the function produces no state for any
    primary file. *)
Theorem empty_function_no_persistence `{SetIter} dir identifier function save_interval
    total_files index file us w :
  save_interval ≠ 0%Z →
  function (os_path_join dir file)
           (initial_state_for w (os_path_join dir file) identifier) = [] →
  (∃ w',
     update_file dir identifier function save_interval total_files (index, file) us w
       = (Returned us, w')
     ∧ stores w' = stores w ∧ files w' = files w ∧ dirs w' = dirs w)
  ∧ (∀ non_sidecar_files sidecar_files,
       list_directory dir w = (Returned (non_sidecar_files, sidecar_files), w) →
       ∃ w', update_and_store_sidecar_files dir identifier function save_interval w
             = (Returned (), w'))
  ∧ (∀ non_sidecar_files sidecar_files,
       list_directory dir w = (Returned (non_sidecar_files, sidecar_files), w) →
       (∀ primary initial_state, primary ∈ non_sidecar_files →
          function (os_path_join dir primary) initial_state = []) →
       ∃ w', update_and_store_sidecar_files dir identifier function save_interval w
             = (Returned (), w')
             ∧ stores w' = stores w ∧ files w' = files w).
Proof.
  intros Hsi Hnone. split_and!.
  - eexists. split.
    + rewrite update_file_nonzero by done. by rewrite Hnone.
    + unfold checkpoints. cbn [every_nth length Z.of_nat app]. by rewrite Zmod_0_l.
  - intros ns sc Hls. eexists. by apply (update_and_store_nonzero _ _ _ _ _ ns sc).
  - intros ns sc Hls Hall. eexists. split.
    + by apply (update_and_store_nonzero _ _ _ _ _ ns sc).
    + edestruct (foldl_after_file_no_states dir identifier function save_interval
                   (size ns) (imap pair (set_iter ns)) w Hsi) as (Hs & Hf & _); [|done].
      intros [i f] initial_state Hin. apply Hall.
      apply list_elem_of_lookup in Hin as [j Hj].
      rewrite list_lookup_imap in Hj.
      destruct (set_iter ns !! j) as [f'|] eqn:Hf'; [|done].
      injection Hj as <- <-. cbn [snd]. apply elem_of_set_iter.
      by apply list_elem_of_lookup_2 in Hf'.
Qed.

Lemma empty_function_no_persistence_witness :
  ∃ w',
    @update_file elements_iter "d" "meta" no_states 10 1 (0, "a.txt") None one_file_world
      = (Returned None, w')
    ∧ stores w' = [] ∧ files w' = ∅.
Proof.
  destruct (@empty_function_no_persistence elements_iter "d" "meta" no_states 10 1 0
              "a.txt" None one_file_world ltac:(lia) eq_refl)
    as [(w' & Hrun & Hstores & Hfiles & _) _].
  exists w'. split; [exact Hrun | split; [exact Hstores | exact Hfiles]].
Defined.

(** C7 as stated fails: with [save_interval = 0] and a function that produces
    no state, the turn of the only primary file, and the call, end in the
    division error (still without a store). *)
Lemma empty_function_zero_interval_fails :
  no_states (os_path_join "d" "a.txt")
            (initial_state_for one_file_world (os_path_join "d" "a.txt") "meta") = []
  ∧ (@update_file elements_iter "d" "meta" no_states 0 1 (0, "a.txt") None
       one_file_world).1 = Raised ZeroDivisionError
  ∧ (@update_and_store_sidecar_files elements_iter "d" "meta" no_states 0
       one_file_world).1 = Raised ZeroDivisionError.
Proof. split_and!; reflexivity. Qed.

Lemma for_each_raises {A S} (x : A) (rest : list A) (body : A → S → Py S) acc w e w' :
  body x acc w = (Raised e, w') →
  for_each (x :: rest) body acc w = (Raised e, w').
Proof. intros Hbody. cbn [for_each]. by apply bind_raised. Qed.

(** C9.  With [save_interval = 0], on every directory that holds at least one
    primary file, [update_and_store_sidecar_files] ends in the division error,
    whatever the function produces (zero states included), and without a
    store.  Both modulo tests raise: the per-state test on the first produced
    state, and the flush test after a generator that produced nothing. *)
Theorem zero_save_interval_raises `{SetIter} dir identifier function w listing primary :
  dirs w !! dir = Some listing →
  primary ∈ listing →
  ¬ is_sidecar_in (list_to_set listing) primary →
  (∃ w',
     update_and_store_sidecar_files dir identifier function 0 w
       = (Raised ZeroDivisionError, w')
     ∧ stores w' = stores w ∧ files w' = files w)
  ∧ (∀ path s rest counter us w1,
       consume_updates path 0 (s :: rest) (counter, us) w1
       = (Raised ZeroDivisionError, w1))
  ∧ (∀ path us w1,
       consume_updates path 0 [] (0%Z, us) w1 = (Returned (0%Z, us), w1)
       ∧ py_mod 0 0 w1 = (Raised ZeroDivisionError, w1))
  ∧ (∀ total_files index file us w1,
       function (os_path_join dir file)
                (initial_state_for w1 (os_path_join dir file) identifier) = [] →
       (update_file dir identifier function 0 total_files (index, file) us w1).1
       = Raised ZeroDivisionError).
Proof.
  intros Hd Hin Hprimary. split_and!.
  - destruct (list_directory_spec w dir listing Hd) as (ns & sc & Hls & Hns & _).
    assert (primary ∈ set_iter ns) as Hp by (by apply elem_of_set_iter, Hns).
    destruct (set_iter ns) as [|first others] eqn:Hiter; [by apply elem_of_nil in Hp|].
    eexists. split.
    + unfold update_and_store_sidecar_files.
      rewrite (bind_returned _ _ _ _ _ Hls). rewrite Hiter. cbn [imap].
      apply bind_raised. apply for_each_raises. apply update_file_zero.
    + done.
  - reflexivity.
  - done.
  - intros. by rewrite update_file_zero.
Qed.

Lemma zero_save_interval_raises_witness :
  ∃ w',
    @update_and_store_sidecar_files elements_iter "d" "meta" seven_states 0 one_file_world
      = (Raised ZeroDivisionError, w')
    ∧ stores w' = [] ∧ files w' = ∅.
Proof.
  destruct (@zero_save_interval_raises elements_iter "d" "meta" seven_states
              one_file_world ["a.txt"] "a.txt" eq_refl
              ltac:(apply list_elem_of_here)
              ltac:(intros [Hc _]; vm_compute in Hc; discriminate))
    as [(w' & Hrun & Hstores & Hfiles) _].
  exists w'. split; [exact Hrun | split; [exact Hstores | exact Hfiles]].
Defined.

Lemma list_directory_partition_witness :
  ∃ non_sidecar_files sidecar_files,
    @list_directory elements_iter "d" three_entry_world
    = (Returned (non_sidecar_files, sidecar_files), three_entry_world)
    ∧ "a.txt" ∈ non_sidecar_files
    ∧ sidecar_files !! "a.txt" = Some ["a.txt---meta"]
    ∧ "b.txt---meta" ∈ non_sidecar_files.
Proof.
  destruct (@list_directory_partition elements_iter three_entry_world
              "d" ["a.txt"; "a.txt---meta"; "b.txt---meta"] eq_refl)
    as (ns & sc & Hrun & _ & _ & _ & _ & _ & _ & _ & Hexample).
  exists ns, sc. split; [exact Hrun | exact (Hexample eq_refl)].
Defined.

(** C5 as stated fails: the owner of a sidecar need not be a primary.  In the
    listing [a, a---b, a---b---c] the entry [a---b---c] is filed as a sidecar
    of [a---b], its only owner, and [a---b] is itself a sidecar of [a], not a
    primary: the membership test is against all entries. *)
Lemma sidecar_of_a_sidecar :
  ∃ non_sidecar_files sidecar_files,
    @list_directory elements_iter "d" nested_world
      = (Returned (non_sidecar_files, sidecar_files), nested_world)
    ∧ sidecar_files !! "a---b" = Some ["a---b---c"]
    ∧ sidecar_files !! "a" = Some ["a---b"]
    ∧ non_sidecar_files = {[ "a" ]}
    ∧ "a---b" ∉ non_sidecar_files.
Proof.
  exists {[ "a" ]}, {[ "a" := ["a---b"]; "a---b" := ["a---b---c"] ]}.
  split_and!; [reflexivity | reflexivity | reflexivity | reflexivity | set_solver].
Qed.

(** ** Handler discovery *)

Lemma foldl_add_identifiers (g : string → string) (l : list string) (X : gset string) :
  foldl (λ (acc : gset string) file, acc ∪ {[ g file ]}) X l
  = X ∪ list_to_set (g <$> l).
Proof.
  revert X. induction l as [|file l IH]; intros X; cbn [foldl fmap list_fmap list_to_set].
  - set_solver.
  - rewrite IH. set_solver.
Qed.

(** Discovery on a directory that exists: it returns, changes nothing, and
    lists, each once, the images of the matching entries. *)
Lemma Handler_find_spec `{SetIter} w self_directory self_base_name listing :
  dirs w !! self_directory = Some listing →
  ∃ identifiers,
    Handler_find self_directory self_base_name w = (Returned identifiers, w)
    ∧ NoDup identifiers
    ∧ (∀ identifier,
         identifier ∈ identifiers
         ↔ ∃ file, file ∈ listing ∧ matches_base_name self_base_name file
                   ∧ identifier = PyStr.replace (self_base_name ++ "---") "" file).
Proof.
  intros Hd. eexists. split_and!.
  - unfold Handler_find. by rewrite (bind_returned _ _ _ _ _ (os_listdir_returned _ _ _ Hd)).
  - apply set_iter_NoDup.
  - intros identifier. rewrite elem_of_set_iter, foldl_add_identifiers.
    rewrite elem_of_union, elem_of_list_to_set, list_elem_of_fmap.
    split.
    + intros [[]%elem_of_empty | (file & -> & [Hm Hl]%list_elem_of_filter)].
      by exists file.
    + intros (file & Hl & Hm & ->). right. exists file. split; [done|].
      by apply list_elem_of_filter.
Qed.

Lemma Handler_init_load `{SetIter} file_path w identifiers w' :
  Handler_find (os_path_split file_path).1 (os_path_split file_path).2 w
    = (Returned identifiers, w') →
  Handler_init file_path true w
  = (Returned (mkHandler file_path (os_path_split file_path).1
                         (os_path_split file_path).2 (Some identifiers)), w').
Proof.
  intros Hfind. unfold Handler_init. destruct (os_path_split file_path) as [d b].
  cbn [fst snd] in *. by rewrite (bind_returned _ _ _ _ _ Hfind).
Qed.

(** Discovery when all matching entries give one identifier. *)
Lemma Handler_find_single `{SetIter} w self_directory self_base_name listing identifier :
  dirs w !! self_directory = Some listing →
  (∀ x, (∃ file, file ∈ listing ∧ matches_base_name self_base_name file
                 ∧ x = PyStr.replace (self_base_name ++ "---") "" file)
        ↔ x = identifier) →
  Handler_find self_directory self_base_name w = (Returned [identifier], w).
Proof.
  intros Hd Hone.
  destruct (Handler_find_spec w self_directory self_base_name listing Hd)
    as (identifiers & Hrun & Hnd & Hmem).
  rewrite Hrun. do 2 f_equal.
  apply Permutation_singleton_r, NoDup_Permutation; [done | apply NoDup_singleton |].
  intros x. by rewrite Hmem, Hone, list_elem_of_singleton.
Qed.

(** C10.  For every listing, the identifier list of [Handler] discovery has no
    duplicate, also when different matching names give the same identifier:
    the replacement deletes every occurrence of ["{base_name}---"], so
    [a---x] and [a---a---x] both give [x], which is listed once. *)
Theorem discovery_no_duplicates `{SetIter} w file_path listing :
  dirs w !! (os_path_split file_path).1 = Some listing →
  (∃ identifiers,
     Handler_init file_path true w
       = (Returned (mkHandler file_path (os_path_split file_path).1
                              (os_path_split file_path).2 (Some identifiers)), w)
     ∧ NoDup identifiers
     ∧ (∀ identifier,
          identifier ∈ identifiers
          ↔ ∃ file, file ∈ listing
                    ∧ matches_base_name (os_path_split file_path).2 file
                    ∧ identifier
                      = PyStr.replace ((os_path_split file_path).2 ++ "---") "" file))
  ∧ (matches_base_name "a" "a---x" ∧ matches_base_name "a" "a---a---x"
     ∧ PyStr.replace "a---" "" "a---x" = "x"
     ∧ PyStr.replace "a---" "" "a---a---x" = "x"
     ∧ Handler_find "d" "a" collapsing_world = (Returned ["x"], collapsing_world)).
Proof.
  intros Hd. split.
  - destruct (Handler_find_spec w _ (os_path_split file_path).2 listing Hd)
      as (identifiers & Hrun & Hnd & Hmem).
    exists identifiers. split_and!; [|done..]. by apply Handler_init_load.
  - split_and!; try done.
    apply (Handler_find_single _ _ _ ["a"; "a---x"; "a---a---x"]); [done|].
    intros x. split.
    + intros (file & Hl & Hm & ->).
      set_unfold in Hl. destruct Hl as [->|[->|[->|[]]]]; [by destruct Hm | done | done].
    + intros ->. exists "a---x". split_and!; [set_solver | done | done].
Qed.

Lemma discovery_no_duplicates_witness :
  ∃ identifiers,
    @Handler_init elements_iter "d/a" true collapsing_world
      = (Returned (mkHandler "d/a" "d" "a" (Some identifiers)), collapsing_world)
    ∧ NoDup identifiers.
Proof.
  destruct (@discovery_no_duplicates elements_iter collapsing_world "d/a"
              ["a"; "a---x"; "a---a---x"] eq_refl)
    as [(identifiers & Hrun & Hnd & _) _].
  exists identifiers. split; [exact Hrun | exact Hnd].
Defined.

(** C6, the code at the failing input.  For [d/photo.jpg] next to
    [photo.jpg.bak], discovery returns [photo.jpg.bak] as an identifier; the
    entry does not start with ["photo.jpg---"], so no prefix was stripped.  The
    filter tests the base name alone.  And where an entry does start with the
    prefix, the replacement deletes its later occurrences too: [a---a---x]
    gives [x], where stripping the prefix gives [a---x]. *)
Theorem discovery_selects_on_base_name_alone `{SetIter} :
  Handler_init "d/photo.jpg" true backup_world
    = (Returned (mkHandler "d/photo.jpg" "d" "photo.jpg" (Some ["photo.jpg.bak"])),
       backup_world)
  ∧ PyStr.startswith "photo.jpg---" "photo.jpg.bak" = false
  ∧ PyStr.replace "a---" "" "a---a---x" = "x"
  ∧ PyStr.drop (String.length "a---") "a---a---x" = "a---x".
Proof.
  split_and!; try reflexivity.
  apply (Handler_init_load "d/photo.jpg").
  apply (Handler_find_single _ _ _ ["photo.jpg"; "photo.jpg.bak"]); [done|].
  intros x. split.
  - intros (file & Hl & Hm & ->).
    set_unfold in Hl. destruct Hl as [->|[->|[]]]; [by destruct Hm | done].
  - intros ->. exists "photo.jpg.bak". split_and!; [set_solver | done | done].
Qed.

(** ** [Handler.get_all] *)

Lemma Handler_get_returns self identifier w :
  ∃ metadata, Handler_get self identifier w = (Returned metadata, w).
Proof.
  unfold Handler_get, universal_load, bind, ret.
  destruct (files w !! _); eauto.
Qed.

(** The loop of [get_all] gathers, for each identifier of the handler, what
    [get] loads for it. *)
Lemma Handler_get_all_loop_spec self identifiers w :
  sidecar_files self = Some identifiers →
  ∃ all_metadata,
    Handler_get_all_loop self w = (Returned all_metadata, w)
    ∧ dom all_metadata = list_to_set identifiers
    ∧ (∀ identifier, identifier ∈ identifiers →
         ∃ metadata, Handler_get self identifier w = (Returned metadata, w)
                     ∧ all_metadata !! identifier = Some metadata).
Proof.
  intros Hids. unfold Handler_get_all_loop. rewrite Hids.
  set (body := λ identifier (all_metadata : gmap string PyObj),
         metadata <- Handler_get self identifier ;;
         ret (<[identifier := metadata]> all_metadata)).
  assert (∀ start : gmap string PyObj,
            ∃ all_metadata,
              for_each identifiers body start w = (Returned all_metadata, w)
              ∧ dom all_metadata = dom start ∪ list_to_set identifiers
              ∧ (∀ identifier, identifier ∉ identifiers →
                   all_metadata !! identifier = start !! identifier)
              ∧ (∀ identifier, identifier ∈ identifiers →
                   ∃ metadata, Handler_get self identifier w = (Returned metadata, w)
                               ∧ all_metadata !! identifier = Some metadata)) as Hloop.
  { clear Hids. induction identifiers as [|i rest IH]; intros start.
    - exists start. split_and!; [done | set_solver | done | by intros ? ?%elem_of_nil].
    - destruct (Handler_get_returns self i w) as [m Hm].
      destruct (IH (<[i := m]> start)) as (res & Hrun & Hdom & Hout & Hin).
      exists res. split_and!.
      + cbn [for_each]. unfold body at 1.
        rewrite (bind_returned _ _ _ _ _ (bind_returned _ _ _ _ _ Hm)). exact Hrun.
      + rewrite Hdom, dom_insert_L. set_solver.
      + intros j Hj. rewrite Hout by set_solver. apply lookup_insert_ne. set_solver.
      + intros j Hj. destruct (decide (j ∈ rest)) as [Hr|Hr]; [by apply Hin|].
        assert (j = i) as -> by set_solver.
        exists m. split; [done|]. rewrite Hout by done. apply lookup_insert_eq. }
  destruct (Hloop ∅) as (res & Hrun & Hdom & _ & Hin).
  exists res. split_and!; [done | rewrite Hdom; set_solver | done].
Qed.

(** C2, the code at the failing input.  For [d/photo.jpg] with the sidecar
    [photo.jpg---tags.json], the handler built with discovery lists the
    identifier [tags.json]; the loop of [get_all] fills its local mapping with
    the metadata of that identifier, and the call then evaluates to [None],
    not to the mapping.  [get_all] never evaluates to a mapping. *)
Theorem get_all_returns_None `{SetIter} :
  (bind (Handler_init "d/photo.jpg" true) Handler_get_all tagged_world
     = (Returned None, tagged_world))
  ∧ (bind (Handler_init "d/photo.jpg" true) Handler_get_all_loop tagged_world
     = (Returned {[ "tags.json" := PyDict {[ "label" := "cat" ]} ]}, tagged_world))
  ∧ (∀ self w, match (Handler_get_all self w).1 with
               | Returned result => result = None
               | Raised _ => True
               end).
Proof.
  assert (Handler_init "d/photo.jpg" true tagged_world
          = (Returned (mkHandler "d/photo.jpg" "d" "photo.jpg" (Some ["tags.json"])),
             tagged_world)) as Hinit.
  { apply (Handler_init_load "d/photo.jpg").
    apply (Handler_find_single _ _ _ ["photo.jpg"; "photo.jpg---tags.json"]); [done|].
    intros x. split.
    - intros (file & Hl & Hm & ->).
      set_unfold in Hl. destruct Hl as [->|[->|[]]]; [by destruct Hm | done].
    - intros ->. exists "photo.jpg---tags.json". split_and!; [set_solver | done | done]. }
  split_and!.
  - rewrite (bind_returned _ _ _ _ _ Hinit). reflexivity.
  - rewrite (bind_returned _ _ _ _ _ Hinit). reflexivity.
  - intros self w. unfold Handler_get_all, bind.
    destruct (Handler_get_all_loop self w) as [[all_metadata|e] w']; done.
Qed.

(** ** [process_sidecar_files] *)

(** On a directory with a primary file, the first turn of the loop fails on
    the name [self] before the function is reached. *)
Lemma process_sidecar_files_NameError `{SetIter} dir identifier function w listing primary :
  dirs w !! dir = Some listing →
  primary ∈ listing →
  ¬ is_sidecar_in (list_to_set listing) primary →
  process_sidecar_files dir identifier function w = (Raised (NameError "self"), w).
Proof.
  intros Hd Hin Hprimary.
  destruct (list_directory_spec w dir listing Hd) as (ns & sc & Hls & Hns & _).
  assert (primary ∈ set_iter ns) as Hp by (by apply elem_of_set_iter, Hns).
  destruct (set_iter ns) as [|first others] eqn:Hiter; [by apply elem_of_nil in Hp|].
  unfold process_sidecar_files. rewrite (bind_returned _ _ _ _ _ Hls). rewrite Hiter.
  by apply for_each_raises.
Qed.

(** C3, the code at the failing input.  On the directory [d] with the single
    file [a.txt], whatever the identifier and the function,
    [process_sidecar_files] ends in [NameError] for the name [self], which the
    module-level function reads when it builds the sidecar path; the function
    has not been invoked, and nothing else has changed. *)
Theorem process_sidecar_files_never_invokes `{SetIter} identifier function :
  process_sidecar_files "d" identifier function one_file_world
    = (Raised (NameError "self"), one_file_world)
  ∧ calls one_file_world = []
  ∧ assoc "self" module_globals = None.
Proof.
  split_and!; [|done..].
  apply (process_sidecar_files_NameError _ _ _ _ ["a.txt"] "a.txt");
    [done | set_solver |].
  intros [Hc _]. by vm_compute in Hc.
Qed.

(** ** [load_to_pandas] *)

(** C8, the code at the failing input.  [load_to_pandas] on a path that is
    not a directory writes its error line and returns the empty frame; on every
    directory that exists it ends in [NameError] for the name
    [load_directory], with no row and no warning, as on [d], where [a.txt] has
    a readable sidecar.  Past that name the construction of the handler, with
    two positional arguments and [load] by keyword, is a [TypeError]. *)
Theorem load_to_pandas_raises_NameError `{SetIter} :
  (∀ w dir identifier,
     load_to_pandas dir identifier w
     = match dirs w !! dir with
       | Some _ => (Raised (NameError "load_directory"), w)
       | None =>
           (Returned [],
            mkWorld (dirs w) (files w) (stores w) (calls w) (stdout w)
                    (stderr w ++ ["Error: The provided identifier '" +:+ identifier
                                  +:+ "' is not a directory." +:+ newline]))
       end)
  ∧ load_to_pandas "d" "meta" readable_world
    = (Raised (NameError "load_directory"), readable_world)
  ∧ assoc "load_directory" module_globals = None
  ∧ (∀ w dir base_file,
       Handler_call [dir; base_file] (Some false) w
       = (Raised (TypeError "Handler.__init__() got multiple values for argument 'load'"),
          w)).
Proof.
  split_and!; try done.
  intros w dir identifier. unfold load_to_pandas, os_path_isdir, bind at 1.
  destruct (dirs w !! dir) as [listing|] eqn:Hd.
  - rewrite bool_decide_eq_true_2 by eauto. reflexivity.
  - rewrite bool_decide_eq_false_2 by (by intros [? ?]). reflexivity.
Qed.

(** ** Facts on the Python strings *)

Lemma string_app_cons x (a b : string) : String x a +:+ b = String x (a +:+ b).
Proof. reflexivity. Qed.

Lemma string_app_assoc (a b c : string) : (a +:+ b) +:+ c = a +:+ (b +:+ c).
Proof. induction a as [|x a IH]; [done|]. rewrite !string_app_cons. by rewrite IH. Qed.

Lemma string_length_app (a b : string) :
  String.length (a +:+ b) = (String.length a + String.length b)%nat.
Proof.
  induction a as [|x a IH]; [done|]. rewrite string_app_cons. cbn [String.length].
  by rewrite IH.
Qed.

Lemma startswith_app p s : PyStr.startswith p (p +:+ s) = true.
Proof.
  induction p as [|a p IH]; [by destruct s|]. rewrite string_app_cons.
  by rewrite startswith_cons, Ascii.eqb_refl.
Qed.

Lemma drop_app p s : PyStr.drop (String.length p) (p +:+ s) = s.
Proof. induction p as [|a p IH]; [done|]. exact IH. Qed.

(** A string that starts with [p] is [p] followed by the rest. *)
Lemma startswith_split p s :
  PyStr.startswith p s = true → s = p +:+ PyStr.drop (String.length p) s.
Proof.
  revert s. induction p as [|a p IH]; intros s Hs; [done|].
  destruct s as [|b s]; [done|]. rewrite startswith_cons in Hs.
  destruct (Ascii.eqb_spec a b) as [->|]; [|done].
  rewrite string_app_cons. cbn [String.length PyStr.drop]. by rewrite <- IH.
Qed.

Lemma contains_drop sep n s :
  PyStr.contains sep s = false → PyStr.contains sep (PyStr.drop n s) = false.
Proof.
  revert s. induction n as [|n IH]; intros s Hs; [done|].
  destruct s as [|c s]; [done|]. cbn [PyStr.drop]. apply IH.
  rewrite contains_cons in Hs. by apply orb_false_elim in Hs as [_ ?].
Qed.

Lemma rsplit_last_None_inv a sep s :
  PyStr.rsplit_last (String a sep) s = None → PyStr.contains (String a sep) s = false.
Proof.
  induction s as [|c s IH]; [done|].
  rewrite rsplit_last_cons, contains_cons.
  destruct (PyStr.rsplit_last (String a sep) s) as [[h t]|]; [done|].
  destruct (PyStr.startswith (String a sep) (String c s)); [done|].
  intros _. by rewrite IH.
Qed.

(** The partition at the last occurrence of a non-empty separator: the parts
    reassemble the string, and the separator does not occur in the tail. *)
Lemma rsplit_last_Some a sep s head tail :
  PyStr.rsplit_last (String a sep) s = Some (head, tail) →
  s = head +:+ String a sep +:+ tail
  ∧ PyStr.contains (String a sep) tail = false.
Proof.
  revert head tail. induction s as [|c s IH]; intros head tail; [done|].
  rewrite rsplit_last_cons.
  destruct (PyStr.rsplit_last (String a sep) s) as [[h t]|] eqn:Hlater.
  - intros [= <- <-]. destruct (IH h t eq_refl) as [-> Hno]. done.
  - destruct (PyStr.startswith (String a sep) (String c s)) eqn:Hhere; [|done].
    intros [= <- <-]. split.
    + exact (startswith_split _ _ Hhere).
    + cbn [String.length PyStr.drop]. by apply contains_drop, rsplit_last_None_inv.
Qed.

Lemma startswith_app_inv p q s :
  PyStr.startswith (p +:+ q) s = true →
  PyStr.startswith q (PyStr.drop (String.length p) s) = true.
Proof.
  revert s. induction p as [|a p IH]; intros s Hs; [done|].
  destruct s as [|b s]; [done|]. rewrite string_app_cons in Hs.
  rewrite startswith_cons in Hs. destruct (Ascii.eqb a b); [|done]. by apply IH.
Qed.

Lemma contains_true_startswith sep s :
  PyStr.startswith sep s = true → PyStr.contains sep s = true.
Proof. intros Hs. destruct s; cbn [PyStr.contains]; by rewrite Hs. Qed.

(** A string without [q] is without every [p ++ q]. *)
Lemma contains_app_false p q s :
  PyStr.contains q s = false → PyStr.contains (p +:+ q) s = false.
Proof.
  intros Hq. destruct (PyStr.contains (p +:+ q) s) eqn:Hpq; [|done].
  exfalso. induction s as [|c s IH].
  - cbn in Hpq. rewrite orb_false_r in Hpq.
    apply startswith_app_inv, contains_true_startswith in Hpq.
    apply (contains_drop _ (String.length p)) in Hq. congruence.
  - rewrite contains_cons in Hpq. apply orb_prop in Hpq as [Hhere|Hlater].
    + apply startswith_app_inv, contains_true_startswith in Hhere.
      apply (contains_drop _ (String.length p)) in Hq. congruence.
    + rewrite contains_cons in Hq. apply orb_false_elim in Hq as [_ Hq]. by apply IH.
Qed.

(** Where [old] does not occur, the replacement changes nothing. *)
Lemma replace_no_occurrence old new s :
  PyStr.contains old s = false → PyStr.replace old new s = s.
Proof.
  unfold PyStr.replace. induction s as [|c s IH]; [done|].
  rewrite contains_cons. intros [Hhere Hlater]%orb_false_elim.
  cbn [PyStr.replace_go]. rewrite Hhere. by rewrite IH.
Qed.

Lemma replace_go_skip old new p s :
  PyStr.replace_go old new (String.length p) (p +:+ s) = PyStr.replace_go old new 0 s.
Proof. induction p as [|a p IH]; [done|]. exact IH. Qed.

(** Deleting a non-empty [old] from [old ++ s] deletes the leading
    occurrence and goes on in [s]. *)
Lemma replace_prefix a old s :
  PyStr.replace (String a old) "" (String a old +:+ s) = PyStr.replace (String a old) "" s.
Proof.
  unfold PyStr.replace. rewrite string_app_cons. cbn [PyStr.replace_go].
  rewrite <- string_app_cons, startswith_app.
  cbn [String.length Nat.sub]. rewrite Nat.sub_0_r. apply replace_go_skip.
Qed.

(** ** More on the directory classifier *)

(** An entry that contains ["---"] is its candidate primary name, the
    separator, and a tail without ["---"]. *)
Lemma base_of_split file :
  PyStr.contains "---" file = true →
  ∃ tail, PyStr.rpartition "---" file = (base_of file, "---", tail)
          ∧ file = sidecar_name (base_of file) tail
          ∧ PyStr.contains "---" tail = false.
Proof.
  intros Hc. unfold base_of, PyStr.rpartition.
  destruct (PyStr.rsplit_last "---" file) as [[head tail]|] eqn:Hsplit.
  - exists tail. destruct (rsplit_last_Some _ _ _ _ _ Hsplit) as [-> Hno]. done.
  - apply rsplit_last_None_inv in Hsplit. congruence.
Qed.

Lemma base_of_shorter file :
  PyStr.contains "---" file = true →
  (String.length (base_of file) < String.length file)%nat.
Proof.
  intros (tail & _ & Hfile & _)%base_of_split.
  rewrite Hfile at 2. unfold sidecar_name. rewrite !string_length_app. cbn. lia.
Qed.

Lemma shortest_entry (listing : list string) :
  listing ≠ [] →
  ∃ x, x ∈ listing ∧ ∀ y, y ∈ listing → (String.length x ≤ String.length y)%nat.
Proof.
  induction listing as [|a l IH]; [done|]. intros _.
  destruct l as [|b l].
  - exists a. split; [set_solver|]. intros y ->%list_elem_of_singleton. done.
  - destruct IH as (x & Hx & Hmin); [done|].
    destruct (decide (String.length a ≤ String.length x)%nat) as [Hle|Hgt].
    + exists a. split; [set_solver|]. intros y [->|Hy]%elem_of_cons; [done|].
      specialize (Hmin y Hy). lia.
    + exists x. split; [set_solver|]. intros y [->|Hy]%elem_of_cons; [lia|].
      by apply Hmin.
Qed.

(** X1.  A directory that exists and has at least one entry has at least one
    primary file: a shortest entry cannot be the sidecar of another entry,
    because the candidate primary name of a sidecar is strictly shorter. *)
Theorem nonempty_directory_has_primary `{SetIter} w dir listing :
  dirs w !! dir = Some listing →
  listing ≠ [] →
  ∃ non_sidecar_files sidecar_files primary,
    list_directory dir w = (Returned (non_sidecar_files, sidecar_files), w)
    ∧ primary ∈ listing
    ∧ primary ∈ non_sidecar_files.
Proof.
  intros Hd Hne.
  destruct (list_directory_spec w dir listing Hd) as (ns & sc & Hrun & Hns & _).
  destruct (shortest_entry listing Hne) as (x & Hx & Hmin).
  exists ns, sc, x. split_and!; [done..|].
  apply Hns. split; [done|]. intros [Hc Hb].
  apply elem_of_list_to_set, Hmin in Hb.
  pose proof (base_of_shorter x Hc). lia.
Qed.

Lemma nonempty_directory_has_primary_witness :
  ∃ non_sidecar_files sidecar_files primary,
    @list_directory elements_iter "d" three_entry_world
      = (Returned (non_sidecar_files, sidecar_files), three_entry_world)
    ∧ primary ∈ ["a.txt"; "a.txt---meta"; "b.txt---meta"]
    ∧ primary ∈ non_sidecar_files.
Proof.
  apply (@nonempty_directory_has_primary elements_iter three_entry_world "d"
           ["a.txt"; "a.txt---meta"; "b.txt---meta"]); [reflexivity | discriminate].
Defined.

(** X2.  Whatever [list_directory] files as a sidecar of [b] is named by the
    naming scheme from [b]: it is [b---identifier] for an identifier without
    ["---"], the one its partition on the last ["---"] yields; and [b] and the
    sidecar are both entries of the directory. *)
Theorem classified_sidecars_follow_naming `{SetIter} w dir listing :
  dirs w !! dir = Some listing →
  ∃ non_sidecar_files sidecar_files,
    list_directory dir w = (Returned (non_sidecar_files, sidecar_files), w)
    ∧ ∀ b fl file,
        sidecar_files !! b = Some fl → file ∈ fl →
        b ∈ listing ∧ file ∈ listing
        ∧ ∃ identifier,
            file = sidecar_name b identifier
            ∧ PyStr.contains "---" identifier = false
            ∧ PyStr.rpartition "---" file = (b, "---", identifier).
Proof.
  intros Hd.
  destruct (list_directory_spec w dir listing Hd) as (ns & sc & Hrun & _ & Hsc).
  exists ns, sc. split; [done|]. intros b fl file [_ ->]%Hsc Hfile.
  apply list_elem_of_filter in Hfile as [[[Hc Hb] <-] Hin].
  apply elem_of_set_iter, elem_of_list_to_set in Hin.
  apply elem_of_list_to_set in Hb.
  destruct (base_of_split file Hc) as (tail & Hp & Hname & Hno).
  split_and!; [done..|]. by exists tail.
Qed.

Lemma classified_sidecars_follow_naming_witness :
  ∃ non_sidecar_files sidecar_files,
    @list_directory elements_iter "d" three_entry_world
      = (Returned (non_sidecar_files, sidecar_files), three_entry_world)
    ∧ ∀ b fl file,
        sidecar_files !! b = Some fl → file ∈ fl →
        b ∈ ["a.txt"; "a.txt---meta"; "b.txt---meta"]
        ∧ file ∈ ["a.txt"; "a.txt---meta"; "b.txt---meta"]
        ∧ ∃ identifier,
            file = sidecar_name b identifier
            ∧ PyStr.contains "---" identifier = false
            ∧ PyStr.rpartition "---" file = (b, "---", identifier).
Proof.
  apply (@classified_sidecars_follow_naming elements_iter three_entry_world "d"
           ["a.txt"; "a.txt---meta"; "b.txt---meta"]); reflexivity.
Defined.

(** X3.  The classification depends on the set of entries alone: for two
    listings with the same entries, in any order and with any repetition, and
    for any two iteration orders of Python's sets, the primaries are the same
    set, the sidecar dicts have the same keys, and the sidecar list of each
    key is the same up to the order of its elements. *)
Theorem list_directory_order_independent (order1 order2 : SetIter)
    w1 w2 dir1 dir2 listing1 listing2 :
  dirs w1 !! dir1 = Some listing1 →
  dirs w2 !! dir2 = Some listing2 →
  (∀ file, file ∈ listing1 ↔ file ∈ listing2) →
  ∃ non_sidecar_files sidecar_files1 sidecar_files2,
    @list_directory order1 dir1 w1 = (Returned (non_sidecar_files, sidecar_files1), w1)
    ∧ @list_directory order2 dir2 w2 = (Returned (non_sidecar_files, sidecar_files2), w2)
    ∧ dom sidecar_files1 = dom sidecar_files2
    ∧ ∀ b fl1, sidecar_files1 !! b = Some fl1 →
               ∃ fl2, sidecar_files2 !! b = Some fl2 ∧ fl1 ≡ₚ fl2.
Proof.
  intros Hd1 Hd2 Hsame.
  assert (list_to_set listing1 = (list_to_set listing2 : gset string)) as Hset.
  { apply set_eq. intros x. by rewrite !elem_of_list_to_set. }
  destruct (@list_directory_spec order1 w1 dir1 listing1 Hd1)
    as (ns1 & sc1 & Hrun1 & Hns1 & Hsc1).
  destruct (@list_directory_spec order2 w2 dir2 listing2 Hd2)
    as (ns2 & sc2 & Hrun2 & Hns2 & Hsc2).
  assert (ns2 = ns1) as ->.
  { apply set_eq. intros x. rewrite Hns1, Hns2, Hset. by rewrite Hsame. }
  assert (Hlists : ∀ b fl1, sc1 !! b = Some fl1 →
                     ∃ fl2, sc2 !! b = Some fl2 ∧ fl1 ≡ₚ fl2).
  { intros b fl1 [Hnil ->]%Hsc1. eexists. split.
    - apply Hsc2. split; [|reflexivity]. intros Hnil2. apply Hnil.
      apply Permutation_nil_r. rewrite <- Hnil2, Hset.
      by rewrite (@set_iter_perm order1), (@set_iter_perm order2).
    - rewrite Hset. by rewrite (@set_iter_perm order1), (@set_iter_perm order2). }
  assert (Hlists' : ∀ b fl2, sc2 !! b = Some fl2 → ∃ fl1, sc1 !! b = Some fl1).
  { intros b fl2 [Hnil ->]%Hsc2. eexists. apply Hsc1. split; [|reflexivity].
    intros Hnil1. apply Hnil. apply Permutation_nil_r. rewrite <- Hnil1, Hset.
    by rewrite (@set_iter_perm order1), (@set_iter_perm order2). }
  exists ns1, sc1, sc2. split_and!; [done.. | | done].
  apply set_eq. intros b. rewrite !elem_of_dom. split.
  - intros [fl1 Hfl1]. destruct (Hlists b fl1 Hfl1) as (fl2 & ? & _). by exists fl2.
  - intros [fl2 Hfl2]. by apply (Hlists' b fl2).
Qed.

Lemma list_directory_order_independent_witness :
  ∃ non_sidecar_files sidecar_files1 sidecar_files2,
    @list_directory elements_iter "d" three_entry_world
      = (Returned (non_sidecar_files, sidecar_files1), three_entry_world)
    ∧ @list_directory reversed_iter "f" shuffled_world
      = (Returned (non_sidecar_files, sidecar_files2), shuffled_world)
    ∧ dom sidecar_files1 = dom sidecar_files2
    ∧ ∀ b fl1, sidecar_files1 !! b = Some fl1 →
               ∃ fl2, sidecar_files2 !! b = Some fl2 ∧ fl1 ≡ₚ fl2.
Proof.
  apply (list_directory_order_independent elements_iter reversed_iter
           three_entry_world shuffled_world "d" "f"
           ["a.txt"; "a.txt---meta"; "b.txt---meta"]
           ["b.txt---meta"; "a.txt"; "a.txt---meta"; "a.txt"]);
    [reflexivity | reflexivity |].
  intros file. rewrite !elem_of_cons. rewrite !elem_of_nil. tauto.
Defined.

(** ** More on Handler discovery *)

Lemma replace_prefix_nonempty old s :
  old ≠ "" → PyStr.replace old "" (old +:+ s) = PyStr.replace old "" s.
Proof. destruct old as [|a old]; [done|]. intros _. apply replace_prefix. Qed.

(** Discovery turns the name [b---identifier] back into [identifier] when
    [b---] does not occur in the identifier. *)
Lemma replace_sidecar_name b identifier :
  PyStr.contains (b +:+ "---") identifier = false →
  PyStr.replace (b +:+ "---") "" (sidecar_name b identifier) = identifier.
Proof.
  intros Hno. unfold sidecar_name. rewrite <- string_app_assoc.
  rewrite replace_prefix_nonempty by (by destruct b).
  by apply replace_no_occurrence.
Qed.

Lemma matches_sidecar_name b identifier : matches_base_name b (sidecar_name b identifier).
Proof.
  split; [apply startswith_app|]. unfold sidecar_name. intros Heq.
  apply (f_equal String.length) in Heq. rewrite !string_length_app in Heq.
  cbn in Heq. lia.
Qed.

(** X4.  The classifier and discovery agree on what the classifier files:
    every entry that [list_directory] files as a sidecar of [b] is found by the
    discovery of the handler for [b] in that directory, under the identifier
    that the partition on the last ["---"] gives. *)
Theorem classified_sidecars_are_discovered `{SetIter} w file_path dir b listing :
  os_path_split file_path = (dir, b) →
  dirs w !! dir = Some listing →
  ∃ non_sidecar_files sidecar_files identifiers,
    list_directory dir w = (Returned (non_sidecar_files, sidecar_files), w)
    ∧ Handler_init file_path true w
      = (Returned (mkHandler file_path dir b (Some identifiers)), w)
    ∧ ∀ fl file,
        sidecar_files !! b = Some fl → file ∈ fl →
        ∃ identifier,
          PyStr.rpartition "---" file = (b, "---", identifier)
          ∧ identifier ∈ identifiers.
Proof.
  intros Hsplit Hd.
  destruct (list_directory_spec w dir listing Hd) as (ns & sc & Hrun & _ & Hsc).
  destruct (Handler_find_spec w dir b listing Hd) as (ids & Hfind & _ & Hmem).
  exists ns, sc, ids. split_and!; [done | |].
  - pose proof (Handler_init_load file_path w ids w) as Hinit.
    rewrite Hsplit in Hinit. by apply Hinit.
  - intros fl file [_ ->]%Hsc Hfile.
    apply list_elem_of_filter in Hfile as [[[Hc Hb] Hbase] Hin].
    apply elem_of_set_iter, elem_of_list_to_set in Hin.
    destruct (base_of_split file Hc) as (tail & Hp & Hname & Hno).
    rewrite Hbase in Hp, Hname.
    exists tail. split; [done|]. apply Hmem. exists file. split_and!; [done | |].
    + rewrite Hname. apply matches_sidecar_name.
    + rewrite Hname. symmetry. apply replace_sidecar_name.
      by apply contains_app_false.
Qed.

Lemma classified_sidecars_are_discovered_witness :
  ∃ non_sidecar_files sidecar_files identifiers,
    @list_directory elements_iter "d" three_entry_world
      = (Returned (non_sidecar_files, sidecar_files), three_entry_world)
    ∧ @Handler_init elements_iter "d/a.txt" true three_entry_world
      = (Returned (mkHandler "d/a.txt" "d" "a.txt" (Some identifiers)), three_entry_world)
    ∧ ∀ fl file,
        sidecar_files !! "a.txt" = Some fl → file ∈ fl →
        ∃ identifier,
          PyStr.rpartition "---" file = ("a.txt", "---", identifier)
          ∧ identifier ∈ identifiers.
Proof.
  apply (@classified_sidecars_are_discovered elements_iter three_entry_world
           "d/a.txt" "d" "a.txt" ["a.txt"; "a.txt---meta"; "b.txt---meta"]);
    reflexivity.
Defined.

(** X5.  Discovery inverts the naming scheme where the identifier is free of
    ["{base_name}---"]: if the directory of a handler holds the entry
    [base_name---identifier], discovery lists [identifier], and [get] of that
    identifier loads the metadata stored under that entry. *)
Theorem discovery_lists_named_sidecar `{SetIter} w file_path dir b listing
    identifier metadata :
  os_path_split file_path = (dir, b) →
  dirs w !! dir = Some listing →
  sidecar_name b identifier ∈ listing →
  PyStr.contains (b +:+ "---") identifier = false →
  files w !! os_path_join dir (sidecar_name b identifier) = Some metadata →
  ∃ identifiers,
    Handler_init file_path true w
      = (Returned (mkHandler file_path dir b (Some identifiers)), w)
    ∧ identifier ∈ identifiers
    ∧ Handler_get (mkHandler file_path dir b (Some identifiers)) identifier w
      = (Returned (PyDict metadata), w).
Proof.
  intros Hsplit Hd Hentry Hno Hfile.
  destruct (Handler_find_spec w dir b listing Hd) as (ids & Hfind & _ & Hmem).
  exists ids. split_and!.
  - pose proof (Handler_init_load file_path w ids w) as Hinit.
    rewrite Hsplit in Hinit. by apply Hinit.
  - apply Hmem. exists (sidecar_name b identifier).
    split_and!; [done | apply matches_sidecar_name |].
    symmetry. by apply replace_sidecar_name.
  - unfold Handler_get, universal_load, bind, ret. cbn [directory base_name].
    by rewrite Hfile.
Qed.

Lemma discovery_lists_named_sidecar_witness :
  ∃ identifiers,
    @Handler_init elements_iter "d/photo.jpg" true tagged_world
      = (Returned (mkHandler "d/photo.jpg" "d" "photo.jpg" (Some identifiers)),
         tagged_world)
    ∧ "tags.json" ∈ identifiers
    ∧ Handler_get (mkHandler "d/photo.jpg" "d" "photo.jpg" (Some identifiers))
        "tags.json" tagged_world
      = (Returned (PyDict {[ "label" := "cat" ]}), tagged_world).
Proof.
  apply (@discovery_lists_named_sidecar elements_iter tagged_world "d/photo.jpg" "d"
           "photo.jpg" ["photo.jpg"; "photo.jpg---tags.json"] "tags.json"
           {[ "label" := "cat" ]});
    [reflexivity | reflexivity | | reflexivity | reflexivity].
  apply list_elem_of_further, list_elem_of_here.
Defined.

(** X6.  A handler built with [load] false never lists the directory: its
    construction succeeds with the world untouched even where the directory
    does not exist (there the construction with [load] true raises the
    listing's error), it has no [sidecar_files] attribute, and [get_all] on it
    raises [AttributeError]. *)
Theorem discovery_skipped_handler `{SetIter} w file_path :
  ∃ h,
    Handler_init file_path false w = (Returned h, w)
    ∧ sidecar_files h = None
    ∧ (∀ w', Handler_get_all h w' = (Raised (AttributeError "sidecar_files"), w'))
    ∧ (dirs w !! (os_path_split file_path).1 = None →
       Handler_init file_path true w
       = (Raised (OSError (os_path_split file_path).1), w)).
Proof.
  unfold Handler_init. destruct (os_path_split file_path) as [d b]. cbn [fst snd].
  eexists. split_and!; [reflexivity | reflexivity | reflexivity |].
  intros Hd. unfold Handler_find, bind, os_listdir. by rewrite Hd.
Qed.

(** ** More on the update driver *)

Lemma every_nth_snoc save_interval counter states s :
  every_nth save_interval counter (states ++ [s])
  = every_nth save_interval counter states
    ++ (if ((counter + Z.of_nat (length states) + 1) mod save_interval =? 0)%Z
        then [s] else []).
Proof.
  revert counter. induction states as [|x states IH]; intros counter.
  - cbn. by rewrite Z.add_0_r, app_nil_r.
  - cbn [app every_nth length]. rewrite IH, <- app_assoc.
    by replace (counter + 1 + Z.of_nat (length states) + 1)%Z
      with (counter + Z.of_nat (S (length states)) + 1)%Z by lia.
Qed.

(** Whenever a state was produced, the last checkpoint is the last state. *)
Lemma last_checkpoints save_interval states s :
  last states = Some s → last (checkpoints save_interval states) = Some s.
Proof.
  intros Hlast. unfold checkpoints. rewrite Hlast. cbn [option_list].
  destruct (Z.eqb_spec (Z.of_nat (length states) mod save_interval) 0) as [Hz|Hnz].
  - rewrite app_nil_r. apply last_Some in Hlast as [l ->].
    rewrite every_nth_snoc, Z.add_0_l.
    rewrite length_app in Hz. cbn [length] in Hz.
    replace (Z.of_nat (length l) + 1)%Z with (Z.of_nat (length l + 1)) by lia.
    rewrite Hz. cbn. apply last_snoc.
  - apply last_snoc.
Qed.

Lemma every_nth_elem_of save_interval counter states s :
  s ∈ every_nth save_interval counter states → s ∈ states.
Proof.
  revert counter. induction states as [|x states IH]; intros counter; [done|].
  cbn [every_nth]. intros [Hhere|Hlater]%elem_of_app.
  - destruct (_ =? _)%Z; [|by apply elem_of_nil in Hhere].
    apply list_elem_of_singleton in Hhere as ->. apply list_elem_of_here.
  - apply list_elem_of_further. by apply (IH (counter + 1)%Z).
Qed.

Lemma checkpoints_elem_of save_interval states s :
  s ∈ checkpoints save_interval states → s ∈ states.
Proof.
  unfold checkpoints. intros [Hnth|Hflush]%elem_of_app.
  - by apply every_nth_elem_of in Hnth.
  - destruct (_ =? _)%Z; [by apply elem_of_nil in Hflush|].
    destruct (last states) as [x|] eqn:Hlast; [|by apply elem_of_nil in Hflush].
    apply list_elem_of_singleton in Hflush as ->.
    apply last_Some in Hlast as [l ->]. apply elem_of_app. right. apply list_elem_of_here.
Qed.

(** X7.  No work is lost: under every non-zero [save_interval], positive or
    negative, when the function produces at least one state for a primary
    file, the turn ends with the last produced state as the last store and as
    the content of the sidecar path. *)
Theorem last_state_is_persisted `{SetIter} dir identifier function save_interval
    total_files index file us w last_state :
  let file_path := os_path_join dir file in
  let sidecar_file_path := sidecar_name file_path identifier in
  save_interval ≠ 0%Z →
  last (function file_path (initial_state_for w file_path identifier)) = Some last_state →
  ∃ w',
    update_file dir identifier function save_interval total_files (index, file) us w
      = (Returned (Some last_state), w')
    ∧ last (stores w') = Some (sidecar_file_path, last_state)
    ∧ files w' !! sidecar_file_path = Some last_state.
Proof.
  intros file_path sidecar_file_path Hsi Hlast. eexists. split_and!.
  - rewrite update_file_nonzero by done. fold file_path. by rewrite Hlast.
  - fold sidecar_file_path. rewrite stores_foldl_stored.
    pose proof (last_checkpoints save_interval _ _ Hlast) as Hcp.
    apply last_Some in Hcp as [l ->]. rewrite fmap_app, app_assoc. apply last_snoc.
  - fold sidecar_file_path. rewrite files_foldl_stored.
    rewrite (last_checkpoints save_interval _ _ Hlast). cbn. apply lookup_insert_eq.
Qed.

Lemma last_state_is_persisted_witness :
  ∃ w',
    @update_file elements_iter "d" "meta" two_states (-10) 1 (0, "a.txt") None
      one_file_world
      = (Returned (Some (numbered 2)), w')
    ∧ last (stores w') = Some ("d/a.txt---meta", numbered 2)
    ∧ files w' !! "d/a.txt---meta" = Some (numbered 2).
Proof.
  apply (@last_state_is_persisted elements_iter "d" "meta" two_states (-10) 1 0
           "a.txt" None one_file_world (numbered 2)); [lia | reflexivity].
Defined.

Lemma div_succ (c si : Z) :
  (0 < si)%Z →
  ((c + 1) / si = c / si + (if ((c + 1) mod si =? 0) then 1 else 0))%Z.
Proof.
  intros Hsi.
  pose proof (Z.div_mod c si ltac:(lia)) as Hc.
  pose proof (Z.div_mod (c + 1) si ltac:(lia)) as Hc1.
  pose proof (Z.mod_pos_bound c si Hsi) as Hb.
  pose proof (Z.mod_pos_bound (c + 1) si Hsi) as Hb1.
  destruct (Z.eqb_spec ((c + 1) mod si) 0) as [Hz|Hnz]; nia.
Qed.

Lemma length_every_nth save_interval counter states :
  (0 < save_interval)%Z →
  Z.of_nat (length (every_nth save_interval counter states))
  = ((counter + Z.of_nat (length states)) / save_interval - counter / save_interval)%Z.
Proof.
  intros Hsi. revert counter. induction states as [|s states IH]; intros counter.
  - cbn. rewrite Z.add_0_r. lia.
  - cbn [every_nth]. rewrite length_app, Nat2Z.inj_add, IH, (div_succ counter) by done.
    replace (counter + 1 + Z.of_nat (length states))%Z
      with (counter + Z.of_nat (length (s :: states)))%Z by (cbn [length]; lia).
    destruct (_ =? _)%Z; cbn [length]; lia.
Qed.

Lemma length_checkpoints save_interval states :
  (0 < save_interval)%Z →
  Z.of_nat (length (checkpoints save_interval states))
  = ((Z.of_nat (length states) + save_interval - 1) / save_interval)%Z.
Proof.
  intros Hsi. unfold checkpoints.
  rewrite length_app, Nat2Z.inj_add, length_every_nth by done.
  rewrite Z.add_0_l, Zdiv_0_l, Z.sub_0_r.
  set (n := Z.of_nat (length states)).
  pose proof (Z.div_mod n save_interval ltac:(lia)) as Hn.
  pose proof (Z.mod_pos_bound n save_interval Hsi) as Hb.
  destruct (Z.eqb_spec (n mod save_interval) 0) as [Hz|Hnz].
  - cbn [length]. clearbody n.
    apply (Z.div_unique _ _ _ (save_interval - 1)); lia.
  - assert (states ≠ []) as Hne.
    { intros ->. subst n. cbn in Hnz. by rewrite Zmod_0_l in Hnz. }
    destruct (last states) as [s|] eqn:Hlast; [|by apply last_None in Hlast].
    change (length (option_list (Some s))) with 1%nat. clearbody n.
    apply (Z.div_unique _ _ _ (n mod save_interval - 1)); lia.
Qed.

(** X8.  Under a positive [save_interval], a turn in which the function
    produces [n] states stores exactly [ceil (n / save_interval)] times:
    [(n + save_interval - 1) / save_interval], rounded down. *)
Theorem number_of_stores `{SetIter} dir identifier function save_interval
    total_files index file us w :
  (0 < save_interval)%Z →
  ∃ result w',
    update_file dir identifier function save_interval total_files (index, file) us w
      = (Returned result, w')
    ∧ Z.of_nat (length (stores w'))
      = (Z.of_nat (length (stores w))
         + (Z.of_nat (length (function (os_path_join dir file)
                                (initial_state_for w (os_path_join dir file) identifier)))
            + save_interval - 1) / save_interval)%Z.
Proof.
  intros Hsi. eexists _, _. split.
  - apply update_file_nonzero. lia.
  - rewrite stores_foldl_stored, length_app, length_fmap, Nat2Z.inj_add.
    by rewrite length_checkpoints.
Qed.

Lemma number_of_stores_witness :
  ∃ result w',
    @update_file elements_iter "d" "meta" seven_states 3 1 (0, "a.txt") None one_file_world
      = (Returned result, w')
    ∧ Z.of_nat (length (stores w')) = 3%Z.
Proof.
  destruct (@number_of_stores elements_iter "d" "meta" seven_states 3 1 0 "a.txt"
              None one_file_world ltac:(lia)) as (result & w' & Hrun & Hcount).
  exists result, w'. split; [exact Hrun | exact Hcount].
Defined.

Lemma every_nth_one counter states : every_nth 1 counter states = states.
Proof.
  revert counter. induction states as [|s states IH]; intros counter; [done|].
  cbn [every_nth]. rewrite Z.mod_1_r, IH. done.
Qed.

(** X9.  With [save_interval = 1] every produced state is stored, in the
    order of production, and the flush adds nothing. *)
Theorem interval_one_stores_every_state `{SetIter} dir identifier function
    total_files index file us w :
  ∃ result w',
    update_file dir identifier function 1 total_files (index, file) us w
      = (Returned result, w')
    ∧ stores w'
      = stores w
        ++ map (pair (sidecar_name (os_path_join dir file) identifier))
               (function (os_path_join dir file)
                         (initial_state_for w (os_path_join dir file) identifier)).
Proof.
  eexists _, _. split; [by apply update_file_nonzero|].
  rewrite stores_foldl_stored. unfold checkpoints.
  by rewrite every_nth_one, Z.mod_1_r, app_nil_r.
Qed.

Lemma every_nth_below save_interval counter states :
  (0 ≤ counter)%Z →
  (counter + Z.of_nat (length states) < save_interval)%Z →
  every_nth save_interval counter states = [].
Proof.
  revert counter. induction states as [|s states IH]; intros counter Hc Hlt; [done|].
  cbn [every_nth length] in *. rewrite IH by lia.
  rewrite Z.mod_small by lia.
  destruct (Z.eqb_spec (counter + 1) 0); [lia | done].
Qed.

(** X10.  When the function produces fewer states than [save_interval], but
    at least one, the turn stores exactly once: the last state, by the flush
    after the loop. *)
Theorem short_run_is_stored_once `{SetIter} dir identifier function save_interval
    total_files index file us w last_state :
  let file_path := os_path_join dir file in
  let states := function file_path (initial_state_for w file_path identifier) in
  last states = Some last_state →
  (Z.of_nat (length states) < save_interval)%Z →
  ∃ w',
    update_file dir identifier function save_interval total_files (index, file) us w
      = (Returned (Some last_state), w')
    ∧ stores w' = stores w ++ [(sidecar_name file_path identifier, last_state)].
Proof.
  intros file_path states Hlast Hlt.
  assert (states ≠ []) as Hne by (intros Hnil; by rewrite Hnil in Hlast).
  assert (0 < Z.of_nat (length states))%Z as Hpos by (destruct states; [done | cbn; lia]).
  eexists. split.
  - rewrite update_file_nonzero by lia. fold file_path. fold states. by rewrite Hlast.
  - fold file_path. fold states. rewrite stores_foldl_stored. unfold checkpoints.
    rewrite every_nth_below, Hlast by lia. rewrite Z.mod_small by lia.
    destruct (Z.eqb_spec (Z.of_nat (length states)) 0); [lia | done].
Qed.

Lemma short_run_is_stored_once_witness :
  ∃ w',
    @update_file elements_iter "d" "meta" two_states 10 1 (0, "a.txt") None one_file_world
      = (Returned (Some (numbered 2)), w')
    ∧ stores w' = [("d/a.txt---meta", numbered 2)].
Proof.
  apply (@short_run_is_stored_once elements_iter "d" "meta" two_states 10 1 0 "a.txt"
           None one_file_world (numbered 2)); [reflexivity | cbn; lia].
Defined.

Lemma mod_opp_eqb (a b : Z) : ((a mod (- b) =? 0) = (a mod b =? 0))%Z.
Proof.
  destruct (Z.eq_dec b 0%Z) as [->|Hb]; [done|].
  destruct (Z.eqb_spec (a mod b)%Z 0%Z) as [Hz|Hnz].
  - apply Z.eqb_eq. by apply Z.mod_opp_r_z.
  - apply Z.eqb_neq. intros Hz. apply Hnz.
    rewrite <- (Z.opp_involutive b). apply Z.mod_opp_r_z; [lia | done].
Qed.

Lemma every_nth_opp save_interval counter states :
  every_nth (- save_interval) counter states = every_nth save_interval counter states.
Proof.
  revert counter. induction states as [|s states IH]; intros counter; [done|].
  cbn [every_nth]. by rewrite mod_opp_eqb, IH.
Qed.

(** X11.  A negative [save_interval] behaves as its absolute value: the turn
    of a primary file under [- save_interval] has the outcome and the effects
    of the turn under [save_interval]. *)
Theorem negative_interval_as_positive `{SetIter} dir identifier function save_interval
    total_files index file us w :
  save_interval ≠ 0%Z →
  update_file dir identifier function (- save_interval) total_files (index, file) us w
  = update_file dir identifier function save_interval total_files (index, file) us w.
Proof.
  intros Hsi. rewrite !update_file_nonzero by lia.
  unfold checkpoints. by rewrite every_nth_opp, mod_opp_eqb.
Qed.

Lemma negative_interval_as_positive_witness :
  @update_file elements_iter "d" "meta" seven_states (- 3) 1 (0, "a.txt") None one_file_world
  = @update_file elements_iter "d" "meta" seven_states 3 1 (0, "a.txt") None one_file_world.
Proof.
  apply (@negative_interval_as_positive elements_iter "d" "meta" seven_states 3 1 0
           "a.txt" None one_file_world). lia.
Defined.

Lemma stdout_foldl_stored path states w :
  stdout (foldl (stored path) w states) = stdout w.
Proof.
  revert w. induction states as [|s rest IH]; intros w; cbn [foldl]; [done|].
  by rewrite IH.
Qed.

(** Creating a file changes the listing of its directory alone, and only by
    adding the file's name. *)
Lemma create_entry_lookup path (listings : gmap string (list string)) d entries :
  listings !! d = Some entries →
  ∃ entries',
    create_entry path listings !! d = Some entries'
    ∧ ∀ x, x ∈ entries'
           ↔ x ∈ entries ∨ (d = (os_path_split path).1 ∧ x = (os_path_split path).2).
Proof.
  intros Hd. unfold create_entry. destruct (os_path_split path) as [dp n]. cbn [fst snd].
  destruct (decide (d = dp)) as [->|Hne].
  - rewrite Hd. case_decide as Hin.
    + exists entries. split; [done|]. intros x. split; [by left|].
      intros [?|[_ ->]]; done.
    + exists (entries ++ [n]). split; [apply lookup_insert_eq|].
      intros x. rewrite elem_of_app, list_elem_of_singleton. naive_solver.
  - exists entries. split.
    + destruct (listings !! dp) as [l|]; [|done].
      case_decide; [done|]. by rewrite lookup_insert_ne.
    + intros x. naive_solver.
Qed.

Lemma create_entry_idemp path (listings : gmap string (list string)) :
  create_entry path (create_entry path listings) = create_entry path listings.
Proof.
  unfold create_entry. destruct (os_path_split path) as [dp n].
  destruct (listings !! dp) as [l|] eqn:Hl; [|by rewrite Hl].
  case_decide as Hin.
  - rewrite Hl. by rewrite decide_True.
  - rewrite lookup_insert_eq. rewrite decide_True; [done|].
    apply elem_of_app. right. apply list_elem_of_here.
Qed.

Lemma dirs_foldl_stored path states w :
  dirs (foldl (stored path) w states)
  = match states with [] => dirs w | _ :: _ => create_entry path (dirs w) end.
Proof.
  revert w. induction states as [|s rest IH]; intros w; cbn [foldl]; [done|].
  rewrite IH. destruct rest; [done|]. cbn [stored universal_store snd dirs].
  apply create_entry_idemp.
Qed.

Lemma files_foldl_stored_other path states w other :
  other ≠ path → files (foldl (stored path) w states) !! other = files w !! other.
Proof.
  intros Hne. rewrite files_foldl_stored. destruct (last states); [|done].
  cbn. by apply lookup_insert_ne.
Qed.

(** What a run of turns leaves: the stores it added all go to the sidecar
    path of one of its files and keep a state the function produced for it;
    every other path keeps its content; no listing has lost an entry; and one
    progress line per file has been printed, in order. *)
Lemma foldl_after_file_frame dir identifier function save_interval total_files entries w :
  let w' := foldl (after_file dir identifier function save_interval total_files) w entries in
  (∀ d listing, dirs w !! d = Some listing →
     ∃ listing', dirs w' !! d = Some listing' ∧ ∀ x, x ∈ listing → x ∈ listing')
  ∧ stdout w' = stdout w ++ map (λ entry, progress_line entry.1 total_files entry.2) entries
  ∧ (∃ added,
       stores w' = stores w ++ added
       ∧ ∀ path state, (path, state) ∈ added →
           ∃ entry initial_state,
             entry ∈ entries
             ∧ path = sidecar_name (os_path_join dir entry.2) identifier
             ∧ state ∈ function (os_path_join dir entry.2) initial_state)
  ∧ (∀ other,
       (∀ entry, entry ∈ entries →
          other ≠ sidecar_name (os_path_join dir entry.2) identifier) →
       files w' !! other = files w !! other).
Proof.
  revert w. induction entries as [|entry rest IH]; intros w.
  - cbn. split_and!; [by eauto | by rewrite app_nil_r | | done].
    exists []. split; [by rewrite app_nil_r | by intros ? ? ?%elem_of_nil].
  - cbn [foldl].
    destruct (IH (after_file dir identifier function save_interval total_files w entry))
      as (Hdirs & Hout & (added & Hstores & Hadded) & Hfiles).
    split_and!.
    + intros d listing Hd.
      assert (∃ l1, dirs (after_file dir identifier function save_interval
                            total_files w entry) !! d = Some l1
                    ∧ ∀ x, x ∈ listing → x ∈ l1) as (l1 & Hl1 & Hsub1).
      { unfold after_file. rewrite dirs_foldl_stored. cbn [printed print snd dirs].
        destruct (checkpoints _ _); [by eauto|].
        destruct (create_entry_lookup
                    (sidecar_name (os_path_join dir entry.2) identifier) _ _ _ Hd)
          as (l1 & Hl1 & Hmem).
        exists l1. split; [done|]. intros x Hx. apply Hmem. by left. }
      destruct (Hdirs d l1 Hl1) as (l2 & Hl2 & Hsub2).
      exists l2. split; [done|]. intros x Hx. by apply Hsub2, Hsub1.
    + rewrite Hout. unfold after_file at 1. rewrite stdout_foldl_stored.
      cbn [printed print snd stdout map]. by rewrite <- app_assoc.
    + eexists. split.
      * rewrite Hstores. unfold after_file at 1. rewrite stores_foldl_stored.
        cbn [printed print snd stores]. by rewrite <- app_assoc.
      * intros path state [Hnow|Hlater]%elem_of_app.
        -- apply list_elem_of_fmap in Hnow as (s & [= -> ->] & Hs).
           apply checkpoints_elem_of in Hs.
           eexists entry, _. split_and!; [apply list_elem_of_here | done | exact Hs].
        -- destruct (Hadded path state Hlater) as (e & i & He & Hp & Hs).
           exists e, i. split_and!; [by apply list_elem_of_further | done..].
    + intros other Hother. rewrite Hfiles.
      * unfold after_file. rewrite files_foldl_stored_other; [done|].
        apply Hother, list_elem_of_here.
      * intros e He. by apply Hother, list_elem_of_further.
Qed.

(** X12.  Under a non-zero [save_interval], on a directory that exists,
    [update_and_store_sidecar_files] returns, and all it writes are sidecars of
    primary files: every store it adds goes to the path
    [{directory}/{primary}---{identifier}] of a primary file of the
    classification and keeps a state that the function produced for that
    file; every other path keeps its content, and no listing loses an entry.
    Entries filed as sidecars are never handed to the function. *)
Theorem update_writes_only_sidecars_of_primaries `{SetIter} dir identifier function
    save_interval w listing :
  save_interval ≠ 0%Z →
  dirs w !! dir = Some listing →
  ∃ non_sidecar_files sidecar_files w' added,
    list_directory dir w = (Returned (non_sidecar_files, sidecar_files), w)
    ∧ update_and_store_sidecar_files dir identifier function save_interval w
      = (Returned (), w')
    ∧ stores w' = stores w ++ added
    ∧ (∀ path state, (path, state) ∈ added →
         ∃ primary initial_state,
           primary ∈ non_sidecar_files
           ∧ path = sidecar_name (os_path_join dir primary) identifier
           ∧ state ∈ function (os_path_join dir primary) initial_state)
    ∧ (∀ other,
         (∀ primary, primary ∈ non_sidecar_files →
            other ≠ sidecar_name (os_path_join dir primary) identifier) →
         files w' !! other = files w !! other)
    ∧ (∀ d entries, dirs w !! d = Some entries →
         ∃ entries', dirs w' !! d = Some entries' ∧ ∀ x, x ∈ entries → x ∈ entries').
Proof.
  intros Hsi Hd.
  destruct (list_directory_spec w dir listing Hd) as (ns & sc & Hls & _ & _).
  destruct (foldl_after_file_frame dir identifier function save_interval (size ns)
              (imap pair (set_iter ns)) w)
    as (Hdirs & _ & (added & Hstores & Hadded) & Hfiles).
  assert (Hentry : ∀ entry : nat * string,
            entry ∈ imap pair (set_iter ns) → entry.2 ∈ ns).
  { intros [i f] Hin. apply list_elem_of_lookup in Hin as [j Hj].
    rewrite list_lookup_imap in Hj.
    destruct (set_iter ns !! j) as [f'|] eqn:Hf'; [|done].
    injection Hj as <- <-. cbn [snd]. apply elem_of_set_iter.
    by apply list_elem_of_lookup_2 in Hf'. }
  eexists ns, sc, _, added. split_and!; [done | | done | | | done].
  - by apply (update_and_store_nonzero dir identifier function save_interval w ns sc).
  - intros path state Hin. destruct (Hadded path state Hin) as (e & i & He & Hp & Hs).
    exists e.2, i. split_and!; [by apply Hentry | done..].
  - intros other Hother. apply Hfiles. intros e He. by apply Hother, Hentry.
Qed.

Lemma update_writes_only_sidecars_of_primaries_witness :
  ∃ non_sidecar_files sidecar_files w' added,
    @list_directory elements_iter "d" three_entry_world
      = (Returned (non_sidecar_files, sidecar_files), three_entry_world)
    ∧ @update_and_store_sidecar_files elements_iter "d" "meta" seven_states 3
        three_entry_world
      = (Returned (), w')
    ∧ stores w' = added.
Proof.
  destruct (@update_writes_only_sidecars_of_primaries elements_iter "d" "meta"
              seven_states 3 three_entry_world
              ["a.txt"; "a.txt---meta"; "b.txt---meta"] ltac:(lia) eq_refl)
    as (ns & sc & w' & added & Hls & Hrun & Hstores & _).
  exists ns, sc, w', added. split_and!; [exact Hls | exact Hrun | exact Hstores].
Defined.

(** X13.  Under a non-zero [save_interval], on a directory that exists, the
    driver prints exactly one progress line per primary file, in the order in
    which it visits them, numbered from 1 to the number of primary files. *)
Theorem update_prints_one_line_per_primary `{SetIter} dir identifier function
    save_interval w listing :
  save_interval ≠ 0%Z →
  dirs w !! dir = Some listing →
  ∃ non_sidecar_files sidecar_files w',
    list_directory dir w = (Returned (non_sidecar_files, sidecar_files), w)
    ∧ update_and_store_sidecar_files dir identifier function save_interval w
      = (Returned (), w')
    ∧ stdout w'
      = stdout w
        ++ imap (λ index file,
                   "update_and_store_sidecar_files: [" +:+ pretty (index + 1) +:+ "/"
                   +:+ pretty (size non_sidecar_files) +:+ "] " +:+ file)
                (set_iter non_sidecar_files)
    ∧ length (set_iter non_sidecar_files) = size non_sidecar_files.
Proof.
  intros Hsi Hd.
  destruct (list_directory_spec w dir listing Hd) as (ns & sc & Hls & _ & _).
  destruct (foldl_after_file_frame dir identifier function save_interval (size ns)
              (imap pair (set_iter ns)) w) as (_ & Hout & _).
  eexists ns, sc, _. split_and!; [done | | |].
  - by apply (update_and_store_nonzero dir identifier function save_interval w ns sc).
  - rewrite Hout. f_equal.
    change (map ?g ?l) with (g <$> l). rewrite fmap_imap. by apply imap_ext.
  - by rewrite set_iter_perm.
Qed.

Lemma update_prints_one_line_per_primary_witness :
  ∃ non_sidecar_files sidecar_files w',
    @list_directory elements_iter "d" one_file_world
      = (Returned (non_sidecar_files, sidecar_files), one_file_world)
    ∧ @update_and_store_sidecar_files elements_iter "d" "meta" seven_states 3
        one_file_world
      = (Returned (), w')
    ∧ length (@set_iter elements_iter non_sidecar_files) = size non_sidecar_files.
Proof.
  destruct (@update_prints_one_line_per_primary elements_iter "d" "meta" seven_states 3
              one_file_world ["a.txt"] ltac:(lia) eq_refl)
    as (ns & sc & w' & Hls & Hrun & _ & Hlen).
  exists ns, sc, w'. split_and!; [exact Hls | exact Hrun | exact Hlen].
Defined.

(** Joining a directory with a sidecar name is naming the sidecar of the
    joined path. *)
Lemma os_path_join_sidecar_name head tail identifier :
  os_path_join head (sidecar_name tail identifier)
  = sidecar_name (os_path_join head tail) identifier.
Proof.
  unfold os_path_join, sidecar_name.
  assert (PyStr.startswith "/" (tail +:+ "---" +:+ identifier) = PyStr.startswith "/" tail)
    as -> by (by destruct tail).
  destruct (PyStr.startswith "/" tail); [done|].
  destruct (_ || _); by rewrite ?string_app_assoc.
Qed.

(** X14.  What the driver stores is what a later run loads.  For a primary
    path that its own split and join give back, after a turn under a non-zero
    [save_interval] in which the function produced at least one state,
    [Handler.get] for the identifier returns the last produced state, and so
    the next turn for that file starts from it. *)
Theorem stored_state_is_reloaded `{SetIter} dir identifier function save_interval
    total_files index file us w last_state :
  let file_path := os_path_join dir file in
  save_interval ≠ 0%Z →
  os_path_join (os_path_split file_path).1 (os_path_split file_path).2 = file_path →
  last (function file_path (initial_state_for w file_path identifier)) = Some last_state →
  ∃ w' handler,
    update_file dir identifier function save_interval total_files (index, file) us w
      = (Returned (Some last_state), w')
    ∧ Handler_call [file_path] (Some false) w' = (Returned handler, w')
    ∧ Handler_get handler identifier w' = (Returned (PyDict last_state), w')
    ∧ initial_state_for w' file_path identifier = last_state.
Proof.
  intros file_path Hsi Hnormal Hlast.
  pose proof (last_checkpoints save_interval _ _ Hlast) as Hcp.
  remember (os_path_join dir file) as fp eqn:Hfp. subst file_path.
  set (w' := foldl (stored (sidecar_name fp identifier))
                   (printed (progress_line index total_files file) w)
                   (checkpoints save_interval
                      (function fp (initial_state_for w fp identifier)))).
  assert (files w' !! os_path_join (os_path_split fp).1
                        (sidecar_name (os_path_split fp).2 identifier)
          = Some last_state) as Hpath.
  { rewrite os_path_join_sidecar_name, Hnormal. unfold w'.
    rewrite files_foldl_stored, Hcp. cbn. apply lookup_insert_eq. }
  exists w', (mkHandler fp (os_path_split fp).1 (os_path_split fp).2 None).
  split; [|split; [|split]].
  - rewrite update_file_nonzero by done. rewrite <- Hfp, Hlast. reflexivity.
  - unfold Handler_call, Handler_init. by destruct (os_path_split fp).
  - unfold Handler_get, universal_load, bind, ret. cbn [directory base_name].
    by rewrite Hpath.
  - unfold initial_state_for.
    destruct (os_path_split fp) as [d b] eqn:Hsplit. cbn [fst snd] in Hpath.
    rewrite Hpath. unfold or_empty_dict, truthy. case_bool_decide as Hne; [done|].
    symmetry. by destruct (decide (last_state = ∅)).
Qed.

Lemma stored_state_is_reloaded_witness :
  ∃ w' handler,
    @update_file elements_iter "d" "meta" two_states 10 1 (0, "a.txt") None one_file_world
      = (Returned (Some (numbered 2)), w')
    ∧ @Handler_call elements_iter ["d/a.txt"] (Some false) w' = (Returned handler, w')
    ∧ Handler_get handler "meta" w' = (Returned (PyDict (numbered 2)), w')
    ∧ initial_state_for w' "d/a.txt" "meta" = numbered 2.
Proof.
  apply (@stored_state_is_reloaded elements_iter "d" "meta" two_states 10 1 0 "a.txt"
           None one_file_world (numbered 2)); [lia | reflexivity | reflexivity].
Defined.

Lemma set_iter_empty `{SetIter} : set_iter ∅ = [].
Proof. apply Permutation_nil_r. by rewrite set_iter_perm, elements_empty. Qed.

(** X15.  On a directory without entries both drivers return at once, with
    the world untouched: no progress line, no store, no call of the function,
    for every function, identifier and [save_interval], zero included. *)
Theorem empty_directory_is_a_no_op `{SetIter} w dir identifier :
  dirs w !! dir = Some [] →
  list_directory dir w = (Returned (∅, ∅), w)
  ∧ (∀ function save_interval,
       update_and_store_sidecar_files dir identifier function save_interval w
       = (Returned (), w))
  ∧ (∀ function, process_sidecar_files dir identifier function w = (Returned (), w)).
Proof.
  intros Hd.
  assert (list_directory dir w = (Returned (∅, ∅), w)) as Hls.
  { unfold list_directory. rewrite (bind_returned _ _ _ _ _ (os_listdir_returned _ _ _ Hd)).
    cbn [list_to_set]. by rewrite set_iter_empty. }
  split_and!; [done | |].
  - intros function save_interval. unfold update_and_store_sidecar_files.
    rewrite (bind_returned _ _ _ _ _ Hls). by rewrite set_iter_empty.
  - intros function. unfold process_sidecar_files.
    rewrite (bind_returned _ _ _ _ _ Hls). by rewrite set_iter_empty.
Qed.

Lemma empty_directory_is_a_no_op_witness :
  @update_and_store_sidecar_files elements_iter "d" "meta" seven_states 0
    empty_directory_world
  = (Returned (), empty_directory_world).
Proof.
  destruct (@empty_directory_is_a_no_op elements_iter empty_directory_world "d" "meta"
              eq_refl) as (_ & Hupdate & _).
  exact (Hupdate seven_states 0%Z).
Defined.

(** X16.  On a path that is not a directory, the classifier and both drivers
    end in the error of the listing, before any progress line, store or call;
    the world is untouched. *)
Theorem missing_directory_raises `{SetIter} w dir identifier :
  dirs w !! dir = None →
  list_directory dir w = (Raised (OSError dir), w)
  ∧ (∀ function save_interval,
       update_and_store_sidecar_files dir identifier function save_interval w
       = (Raised (OSError dir), w))
  ∧ (∀ function, process_sidecar_files dir identifier function w
                 = (Raised (OSError dir), w)).
Proof.
  intros Hd.
  assert (list_directory dir w = (Raised (OSError dir), w)) as Hls.
  { unfold list_directory. apply bind_raised. unfold os_listdir. by rewrite Hd. }
  split_and!; [done | |].
  - intros function save_interval. by apply bind_raised.
  - intros function. by apply bind_raised.
Qed.

Lemma missing_directory_raises_witness :
  @update_and_store_sidecar_files elements_iter "nowhere" "meta" seven_states 3
    one_file_world
  = (Raised (OSError "nowhere"), one_file_world).
Proof.
  destruct (@missing_directory_raises elements_iter one_file_world "nowhere" "meta"
              eq_refl) as (_ & Hupdate & _).
  exact (Hupdate seven_states 3%Z).
Defined.

(** X17.  On every directory with at least one entry,
    [process_sidecar_files] ends in [NameError] for [self] with the world
    untouched, so the function is never called; and
    [update_and_store_sidecar_files] with [save_interval = 0] ends in
    [ZeroDivisionError] with exactly one progress line printed and no
    store. *)
Theorem nonempty_directory_failures `{SetIter} w dir identifier listing :
  dirs w !! dir = Some listing →
  listing ≠ [] →
  (∀ function,
     process_sidecar_files dir identifier function w = (Raised (NameError "self"), w))
  ∧ (∀ function,
       ∃ w', update_and_store_sidecar_files dir identifier function 0 w
             = (Raised ZeroDivisionError, w')
             ∧ length (stdout w') = S (length (stdout w))
             ∧ stores w' = stores w ∧ files w' = files w).
Proof.
  intros Hd Hne.
  destruct (list_directory_spec w dir listing Hd) as (ns & sc & Hls & Hns & _).
  destruct (shortest_entry listing Hne) as (x & Hx & Hmin).
  assert (¬ is_sidecar_in (list_to_set listing) x) as Hprimary.
  { intros [Hc Hb]. apply elem_of_list_to_set, Hmin in Hb.
    pose proof (base_of_shorter x Hc). lia. }
  split.
  - intros function. by apply (process_sidecar_files_NameError _ _ _ _ listing x).
  - intros function.
    assert (x ∈ set_iter ns) as Hp by (by apply elem_of_set_iter, Hns).
    destruct (set_iter ns) as [|first others] eqn:Hiter; [by apply elem_of_nil in Hp|].
    eexists. split.
    + unfold update_and_store_sidecar_files.
      rewrite (bind_returned _ _ _ _ _ Hls). rewrite Hiter. cbn [imap].
      apply bind_raised. apply for_each_raises. apply update_file_zero.
    + cbn. rewrite length_app. cbn. split_and!; [lia | done | done].
Qed.

Lemma nonempty_directory_failures_witness :
  @process_sidecar_files elements_iter "d" "meta" (λ _ _, ret ()) three_entry_world
  = (Raised (NameError "self"), three_entry_world).
Proof.
  destruct (@nonempty_directory_failures elements_iter three_entry_world "d" "meta"
              ["a.txt"; "a.txt---meta"; "b.txt---meta"] eq_refl ltac:(discriminate))
    as (Hprocess & _).
  exact (Hprocess (λ _ _, ret ())).
Defined.

(** X18.  Discovery depends on the set of entries alone: for two listings
    with the same entries and any two iteration orders of Python's sets, the
    two identifier lists hold the same identifiers, each once, possibly in a
    different order. *)
Theorem discovery_order_independent (order1 order2 : SetIter)
    w1 w2 dir1 dir2 base listing1 listing2 :
  dirs w1 !! dir1 = Some listing1 →
  dirs w2 !! dir2 = Some listing2 →
  (∀ file, file ∈ listing1 ↔ file ∈ listing2) →
  ∃ identifiers1 identifiers2,
    @Handler_find order1 dir1 base w1 = (Returned identifiers1, w1)
    ∧ @Handler_find order2 dir2 base w2 = (Returned identifiers2, w2)
    ∧ identifiers1 ≡ₚ identifiers2.
Proof.
  intros Hd1 Hd2 Hsame.
  destruct (@Handler_find_spec order1 w1 dir1 base listing1 Hd1)
    as (ids1 & Hrun1 & Hnd1 & Hmem1).
  destruct (@Handler_find_spec order2 w2 dir2 base listing2 Hd2)
    as (ids2 & Hrun2 & Hnd2 & Hmem2).
  exists ids1, ids2. split_and!; [done..|].
  apply NoDup_Permutation; [done..|]. intros x. rewrite Hmem1, Hmem2.
  split; intros (file & Hin & Hrest); exists file; (split; [by apply Hsame | done]).
Qed.

Lemma discovery_order_independent_witness :
  ∃ identifiers1 identifiers2,
    @Handler_find elements_iter "d" "a" collapsing_world
      = (Returned identifiers1, collapsing_world)
    ∧ @Handler_find reversed_iter "e" "a" shuffled_world
      = (Returned identifiers2, shuffled_world)
    ∧ identifiers1 ≡ₚ identifiers2.
Proof.
  apply (discovery_order_independent elements_iter reversed_iter
           collapsing_world shuffled_world "d" "e" "a"
           ["a"; "a---x"; "a---a---x"] ["a---a---x"; "a"; "a---x"; "a"]);
    [reflexivity | reflexivity |].
  intros file. rewrite !elem_of_cons. rewrite !elem_of_nil. tauto.
Defined.

(** ** The driver's stores and the next scan *)

(** An entry that passes the sidecar test is filed under its candidate
    primary name and is no primary. *)
Lemma sidecar_is_filed `{SetIter} w dir listing file :
  dirs w !! dir = Some listing →
  file ∈ listing →
  is_sidecar_in (list_to_set listing) file →
  ∃ non_sidecar_files sidecar_files fl,
    list_directory dir w = (Returned (non_sidecar_files, sidecar_files), w)
    ∧ sidecar_files !! base_of file = Some fl
    ∧ file ∈ fl
    ∧ file ∉ non_sidecar_files.
Proof.
  intros Hd Hfile Hside.
  destruct (list_directory_spec w dir listing Hd) as (ns & sc & Hrun & Hns & Hsc).
  assert (file ∈ filter (λ f, is_sidecar_in (list_to_set listing) f
                              ∧ base_of f = base_of file)
                        (set_iter (list_to_set listing))) as Hin.
  { by rewrite list_elem_of_filter, elem_of_set_iter, elem_of_list_to_set. }
  eexists ns, sc, _. split_and!; [done | | exact Hin |].
  - apply Hsc. split; [|reflexivity]. intros Hnil. rewrite Hnil in Hin.
    by apply elem_of_nil in Hin.
  - rewrite Hns. by intros [_ ?].
Qed.

(** X19.  A sidecar the driver writes is recognised by the next scan.  For a
    primary file of an existing directory, an identifier without ["---"] and
    without a leading dash, and a sidecar path whose split is the directory
    and [{file}---{identifier}]: after a turn under a non-zero [save_interval]
    in which the function produced at least one state, the listing of the
    directory holds its old entries and the sidecar's name, and
    [list_directory] files that name as a sidecar of the file, not as a
    primary. *)
Theorem stored_sidecar_is_classified `{SetIter} dir identifier function save_interval
    total_files index file us w listing last_state :
  let file_path := os_path_join dir file in
  save_interval ≠ 0%Z →
  dirs w !! dir = Some listing →
  file ∈ listing →
  os_path_split (sidecar_name file_path identifier) = (dir, sidecar_name file identifier) →
  PyStr.contains "---" identifier = false →
  PyStr.startswith "-" identifier = false →
  last (function file_path (initial_state_for w file_path identifier)) = Some last_state →
  ∃ w' listing' non_sidecar_files sidecar_files fl,
    update_file dir identifier function save_interval total_files (index, file) us w
      = (Returned (Some last_state), w')
    ∧ dirs w' !! dir = Some listing'
    ∧ (∀ x, x ∈ listing' ↔ x ∈ listing ∨ x = sidecar_name file identifier)
    ∧ list_directory dir w' = (Returned (non_sidecar_files, sidecar_files), w')
    ∧ sidecar_files !! file = Some fl
    ∧ sidecar_name file identifier ∈ fl
    ∧ sidecar_name file identifier ∉ non_sidecar_files.
Proof.
  intros file_path Hsi Hd Hfile Hsplit Hno Hdash Hlast.
  pose proof (last_checkpoints save_interval _ _ Hlast) as Hcp.
  set (w' := foldl (stored (sidecar_name file_path identifier))
                   (printed (progress_line index total_files file) w)
                   (checkpoints save_interval
                      (function file_path (initial_state_for w file_path identifier)))).
  assert (dirs w' = create_entry (sidecar_name file_path identifier) (dirs w)) as Hdirs.
  { unfold w'. rewrite dirs_foldl_stored.
    destruct (checkpoints _ _) as [|c cs]; [done|]. reflexivity. }
  destruct (create_entry_lookup (sidecar_name file_path identifier) _ _ _ Hd)
    as (listing' & Hl' & Hmem).
  rewrite <- Hdirs in Hl'. rewrite Hsplit in Hmem. cbn [fst snd] in Hmem.
  assert (Hmem' : ∀ x, x ∈ listing' ↔ x ∈ listing ∨ x = sidecar_name file identifier).
  { intros x. rewrite Hmem. naive_solver. }
  assert (PyStr.rpartition "---" (sidecar_name file identifier) = (file, "---", identifier))
    as Hpart.
  { unfold PyStr.rpartition. by rewrite rsplit_last_sidecar_name. }
  assert (base_of (sidecar_name file identifier) = file) as Hbase.
  { unfold base_of. by rewrite Hpart. }
  destruct (sidecar_is_filed w' dir listing' (sidecar_name file identifier) Hl')
    as (ns & sc & fl & Hrun & Hfl & Hin & Hnot).
  { apply Hmem'. by right. }
  { split; [apply contains_sidecar_name|].
    rewrite Hbase. apply elem_of_list_to_set, Hmem'. by left. }
  rewrite Hbase in Hfl.
  exists w', listing', ns, sc, fl. split_and!; [|done..].
  rewrite update_file_nonzero by done. fold file_path. by rewrite Hlast.
Qed.

Lemma stored_sidecar_is_classified_witness :
  ∃ w' listing' non_sidecar_files sidecar_files fl,
    @update_file elements_iter "d" "meta" two_states 10 1 (0, "a.txt") None one_file_world
      = (Returned (Some (numbered 2)), w')
    ∧ dirs w' !! "d" = Some listing'
    ∧ (∀ x, x ∈ listing' ↔ x ∈ ["a.txt"] ∨ x = "a.txt---meta")
    ∧ @list_directory elements_iter "d" w' = (Returned (non_sidecar_files, sidecar_files), w')
    ∧ sidecar_files !! "a.txt" = Some fl
    ∧ "a.txt---meta" ∈ fl
    ∧ "a.txt---meta" ∉ non_sidecar_files.
Proof.
  apply (@stored_sidecar_is_classified elements_iter "d" "meta" two_states 10 1 0 "a.txt"
           None one_file_world ["a.txt"] (numbered 2));
    [lia | reflexivity | apply list_elem_of_here | reflexivity | reflexivity
    | reflexivity | reflexivity].
Defined.
